(** * Frame extraction from S3 videos: a model of
      [scripts/extract_frames_from_videos.py] and its properties.

    The script lists the videos under a prefix of a bucket, downloads each
    one to [/tmp], samples every [sampling_rate]-th frame, uploads the
    sampled frames and records the processed video in a cache file.  The
    Python code threads three pieces of state through its calls: the S3
    bucket, the local file system and the order of the calls it makes.  They
    are made explicit here as a [World]; exceptions are explicit outcomes.
    Log lines (loguru) change none of this state and are left out. *)

From Stdlib Require Import ZArith Lia Ascii.
From stdpp Require Import relations gmap strings list pretty sorting.

Local Open Scope Z_scope.

(** ** Strings *)

Definition LF : ascii := "010"%char.
Definition CR : ascii := "013"%char.
Definition nl : string := String LF "".

(** [s.rfind(c)]: the highest index at which [c] occurs in [s], or [-1]. *)
Fixpoint rfind (c : ascii) (s : string) : Z :=
  match s with
  | "" => -1
  | String a s' =>
      let r := rfind c s' in
      if 0 <=? r then r + 1 else if Ascii.eqb a c then 0 else -1
  end.

(** [s[n:]] *)
Fixpoint slice_from (n : nat) (s : string) : string :=
  match n, s with
  | O, _ => s
  | S n', String _ s' => slice_from n' s'
  | S _, "" => ""
  end.

(** [os.path.basename] of posixpath: [i = p.rfind('/') + 1; return p[i:]]. *)
Definition basename (p : string) : string :=
  let i := rfind "/" p + 1 in
  slice_from (Z.to_nat i) p.

(** A path with a trailing slash names a directory: no file can be
    created or renamed to it. *)
Fixpoint is_directory_path (path : string) : bool :=
  match path with
  | "" => false
  | String c path' =>
      match path' with
      | "" => Ascii.eqb c "/"
      | String _ _ => is_directory_path path'
      end
  end.

(** Text-mode reading ([open(..., "rt")], universal newlines): the
    terminators CR LF and CR are handed to the program as LF. *)
Fixpoint translate_newlines (s : string) : string :=
  match s with
  | "" => ""
  | String c s' =>
      if Ascii.eqb c CR then
        match s' with
        | String c' _ =>
            if Ascii.eqb c' LF then translate_newlines s'
            else String LF (translate_newlines s')
        | "" => String LF ""
        end
      else String c (translate_newlines s')
  end.

(** The lines of a text, each one with its terminator; only the last line
    can lack one. *)
Fixpoint split_keepends (s : string) : list string :=
  match s with
  | "" => []
  | String c s' =>
      if Ascii.eqb c LF then nl :: split_keepends s'
      else match split_keepends s' with
           | [] => [String c ""]
           | l :: ls => String c l :: ls
           end
  end.

(** [f.readlines()] on a file opened with mode ["rt"]. *)
Definition readlines (content : string) : list string :=
  split_keepends (translate_newlines content).

(** ** The world the script acts on *)

(** A decoded picture; only its identity matters. *)
Definition Frame : Type := string.

(** What the decoder can get out of a video file: the frames the file
    holds and, for a damaged file, the ordinal of the first frame that
    cannot be decoded.  [cap.read()] returns the frames before that ordinal
    one by one and then [ret = False]. *)
Record Clip : Type := {
  clip_frames : list Frame;
  clip_damaged_at : option nat
}.

Definition readable_frames (c : Clip) : list Frame :=
  match clip_damaged_at c with
  | Some n => take n (clip_frames c)
  | None => clip_frames c
  end.


(** Contents of an S3 object or of a local file. *)
Inductive File : Type :=
  | Video (c : Clip)
  | Image (frame : Frame)
  | Text (s : string).

(** The calls that reach S3, and the write to the cache file, in the order
    the script makes them.  A call is recorded whether or not it succeeds. *)
Inductive Event : Type :=
  | ListObjects (bucket prefix : string)
  | DownloadFile (bucket key filename : string)
  | UploadFile (filename bucket key : string)
  | CacheAppend (line : string).

(** Exceptions the script can die of; it catches none. *)
Inductive Exn : Type :=
  | SystemExit
  | ClientError
  | S3UploadFailedError
  | FileNotFoundError
  | NotADirectoryError
  | UnicodeDecodeError
  | ZeroDivisionError.

(** [s3_objects]: the objects of the bucket the script is run on, by key.
    [files]: the local file system, by path.  [trace]: the events so far,
    oldest first.  [s3_fails n]: whether the call that would become event
    number [n] of the trace fails (network error, throttling, ...). *)
Record World : Type := {
  s3_objects : gmap string File;
  files : gmap string File;
  trace : list Event;
  s3_fails : nat → bool
}.

Definition log (e : Event) (w : World) : World :=
  {| s3_objects := s3_objects w; files := files w;
     trace := trace w ++ [e]; s3_fails := s3_fails w |}.

Definition with_files (f : gmap string File → gmap string File) (w : World) : World :=
  {| s3_objects := s3_objects w; files := f (files w);
     trace := trace w; s3_fails := s3_fails w |}.

Definition with_s3_objects (f : gmap string File → gmap string File) (w : World) : World :=
  {| s3_objects := f (s3_objects w); files := files w;
     trace := trace w; s3_fails := s3_fails w |}.

(** ** Computations: state with exceptions *)

Inductive Outcome (A : Type) : Type :=
  | Ret (a : A) (w : World)
  | Raise (e : Exn) (w : World).
Arguments Ret {A} a w.
Arguments Raise {A} e w.

Definition M (A : Type) : Type := World → Outcome A.

Definition ret {A} (a : A) : M A := fun w => Ret a w.
Definition raise {A} (e : Exn) : M A := fun w => Raise e w.
Definition bind {A B} (m : M A) (k : A → M B) : M B :=
  fun w => match m w with
           | Ret a w' => k a w'
           | Raise e w' => Raise e w'
           end.

Notation "'do' x <- m ; k" := (bind m (fun x => k))
  (at level 10, x name, m at level 100, k at level 200).
Notation "m ;; k" := (bind m (fun _ => k))
  (at level 100, k at level 200, right associativity).

Definition world_of {A} (o : Outcome A) : World :=
  match o with Ret _ w => w | Raise _ w => w end.

Definition returns {A} (o : Outcome A) : bool :=
  match o with Ret _ _ => true | Raise _ _ => false end.

(** ** The library calls the script makes *)

Module S3.
(** [list_objects] answers with at most 1000 keys, in key order; the
    answer has no ["Contents"] entry when no key matches. *)
Definition list_objects (bucket prefix : string) : M (option (list string)) :=
  fun w =>
    let w' := log (ListObjects bucket prefix) w in
    if s3_fails w (length (trace w)) then Raise ClientError w'
    else
      let keys := merge_sort String.le (map_to_list (s3_objects w)).*1 in
      match take 1000 (filter (fun k => String.prefix prefix k) keys) with
      | [] => Ret None w'
      | found => Ret (Some found) w'
      end.

(** [download_file] fetches the object into a temporary file and renames
    it to [filename]; the renaming fails when [filename] names a
    directory, and the temporary file is removed. *)
Definition download_file (bucket key filename : string) : M unit :=
  fun w =>
    let w' := log (DownloadFile bucket key filename) w in
    if s3_fails w (length (trace w)) then Raise ClientError w'
    else match s3_objects w !! key with
         | None => Raise ClientError w'
         | Some obj =>
             if is_directory_path filename then Raise NotADirectoryError w'
             else Ret tt (with_files <[filename := obj]> w')
         end.

Definition upload_file (filename bucket key : string) : M unit :=
  fun w =>
    match files w !! filename with
    | None => Raise FileNotFoundError w
    | Some obj =>
        let w' := log (UploadFile filename bucket key) w in
        if s3_fails w (length (trace w)) then Raise S3UploadFailedError w'
        else Ret tt (with_s3_objects <[key := obj]> w')
    end.
End S3.

Module Os.
Definition path_exists (path : string) : M bool :=
  fun w => Ret (bool_decide (is_Some (files w !! path))) w.

Definition remove (path : string) : M unit :=
  fun w => match files w !! path with
           | None => Raise FileNotFoundError w
           | Some _ => Ret tt (with_files (delete path) w)
           end.

(** [with open(path, "rt") as f: f.readlines()] *)
Definition open_readlines (path : string) : M (list string) :=
  fun w => match files w !! path with
           | None => Raise FileNotFoundError w
           | Some (Text s) => Ret (readlines s) w
           | Some _ => Raise UnicodeDecodeError w
           end.

(** [with open(path, "a") as f: f.write(s)].  A file that is not text
    is not appended to in this model. *)
Definition open_append (path s : string) : M unit :=
  fun w => match files w !! path with
           | None => Ret tt (log (CacheAppend s) (with_files <[path := Text s]> w))
           | Some (Text old) =>
               Ret tt (log (CacheAppend s) (with_files <[path := Text (old +:+ s)]> w))
           | Some _ => Raise UnicodeDecodeError w
           end.
End Os.

Module Cv2.
(** [cv2.VideoCapture(path)]: the capture is opened when the file is a
    video, and [cap.read()] then yields its readable frames in order; a
    picture, such as the JPEG that [imwrite] writes, is opened as a stream
    of one frame. *)
Record Capture : Type := { isOpened : bool; stream : list Frame }.

Definition VideoCapture (path : string) : M Capture :=
  fun w => match files w !! path with
           | Some (Video c) => Ret {| isOpened := true; stream := readable_frames c |} w
           | Some (Image frame) => Ret {| isOpened := true; stream := [frame] |} w
           | _ => Ret {| isOpened := false; stream := [] |} w
           end.

Definition imwrite (path : string) (frame : Frame) : M unit :=
  fun w => Ret tt (with_files <[path := Image frame]> w).
End Cv2.

(** [i % n] of Python integers: the sign of the result is that of [n], as
    for [Z.modulo]; a zero [n] raises. *)
Definition py_mod (i n : Z) : M Z :=
  if n =? 0 then raise ZeroDivisionError else ret (i mod n).

(** ** The script *)

Definition cache_path : string := "/tmp/extract_frames_from_videos_cache.txt".

Definition get_video_keys (bucket prefix : string) : M (list string) :=
  do objects <- S3.list_objects bucket prefix;
  ret (default [] objects).

Section Run.
Variables (bucket output_prefix : string) (sampling_rate : Z).

Definition frame_name_of (video_name : string) (frame_index : nat) : string :=
  video_name +:+ "_frame_" +:+ pretty frame_index +:+ ".jpg".
Definition frame_path_of (video_name : string) (frame_index : nat) : string :=
  "/tmp/" +:+ frame_name_of video_name frame_index.
Definition upload_key_of (video_name : string) (frame_index : nat) : string :=
  output_prefix +:+ "/" +:+ frame_name_of video_name frame_index.

(** One pass through the body of the [while] loop, after [cap.read()]
    has returned [frame]; the result is the new [(i, frame_index)]. *)
Definition while_body (video_name : string) (frame : Frame)
    (i frame_index : nat) : M (nat * nat) :=
  do r <- py_mod (Z.of_nat i) sampling_rate;
  if r =? 0 then
    let frame_name := frame_name_of video_name frame_index in
    let frame_path := "/tmp/" +:+ frame_name in
    Cv2.imwrite frame_path frame ;;
    let upload_key := output_prefix +:+ "/" +:+ frame_name in
    S3.upload_file frame_path bucket upload_key ;;
    Os.remove frame_path ;;
    ret (S i, S frame_index)
  else ret (S i, frame_index).

(** The [while cap.isOpened()] loop over the frames [cap.read()] still
    has to return; an exhausted stream is [ret = False], the [break]. *)
Fixpoint while_loop (video_name : string) (stream : list Frame)
    (i frame_index : nat) : M unit :=
  match stream with
  | [] => ret tt
  | frame :: stream' =>
      do st <- while_body video_name frame i frame_index;
      while_loop video_name stream' (fst st) (snd st)
  end.

(** The check against the cache file at the top of the [for] body:
    [True] is the [continue]. *)
Definition already_completed (download_path : string) : M bool :=
  do cached <- Os.path_exists cache_path;
  if cached then
    do completed_download_paths <- Os.open_readlines cache_path;
    ret (bool_decide (download_path ∈ completed_download_paths))
  else ret false.

(** The body of [for vk in video_keys]. *)
Definition for_body (vk : string) : M unit :=
  let video_name := basename vk in
  let download_path := "/tmp/" +:+ video_name in
  do skip <- already_completed download_path;
  if skip then ret tt
  else
    S3.download_file bucket vk download_path ;;
    do cap <- Cv2.VideoCapture download_path;
    (if Cv2.isOpened cap then while_loop video_name (Cv2.stream cap) 0 0
     else ret tt) ;;
    Os.remove download_path ;;
    Os.open_append cache_path (download_path +:+ nl).

Fixpoint for_loop (video_keys : list string) : M unit :=
  match video_keys with
  | [] => ret tt
  | vk :: rest => for_body vk ;; for_loop rest
  end.
End Run.

Definition main (bucket input_prefix output_prefix : string) (sampling_rate : Z) : M unit :=
  do video_keys <- get_video_keys bucket input_prefix;
  for_loop bucket output_prefix sampling_rate video_keys.



(** ** Vocabulary of the statements *)

(** [c in s] *)
Fixpoint mentions (c : ascii) (s : string) : bool :=
  match s with
  | "" => false
  | String a s' => Ascii.eqb a c || mentions c s'
  end.

(** A text that is empty or whose last character is LF: every text the
    script itself writes to the cache file is of this form. *)
Fixpoint terminated (s : string) : bool :=
  match s with
  | "" => true
  | String c s' =>
      match s' with
      | "" => Ascii.eqb c LF
      | String _ _ => terminated s'
      end
  end.

Fixpoint last_char (s : string) : option ascii :=
  match s with
  | "" => None
  | String c s' =>
      match s' with
      | "" => Some c
      | String _ _ => last_char s'
      end
  end.

(** The cache file is absent or is a text of complete lines. *)
Definition cache_well_formed (w : World) : Prop :=
  match files w !! cache_path with
  | None => True
  | Some (Text t) => terminated t = true
  | Some _ => False
  end.


(** The events a computation adds to the trace of the world it starts in. *)
Definition new_events {A} (m : M A) (w : World) : list Event :=
  drop (length (trace w)) (trace (world_of (m w))).

Definition uploaded_keys (evs : list Event) : list string :=
  omap (fun e => match e with UploadFile _ _ key => Some key | _ => None end) evs.

Definition is_upload (e : Event) : Prop :=
  match e with UploadFile _ _ _ => True | _ => False end.

(** The frames of [stream] that the loop emits when it starts with
    counter [i]: those at the positions [j] with [(i + j) % rate == 0]. *)
Fixpoint sampled (rate : Z) (i : nat) (stream : list Frame) : list Frame :=
  match stream with
  | [] => []
  | frame :: stream' =>
      if Z.of_nat i mod rate =? 0 then frame :: sampled rate (S i) stream'
      else sampled rate (S i) stream'
  end.

(** The number of decoded ordinals [j < i] with [j % rate == 0]. *)
Definition count_sampled (rate : Z) (i : nat) : nat :=
  length (filter (fun j : nat => Z.of_nat j mod rate = 0) (seq 0 i)).


(** What [cap.read()] will return for the file the script downloaded. *)
Definition stream_of (obj : File) : list Frame :=
  match obj with
  | Video c => readable_frames c
  | Image frame => [frame]
  | Text _ => []
  end.

Section RunVocabulary.
Variables (bucket output_prefix : string).

Definition upload_event (video_name : string) (frame_index : nat) : Event :=
  UploadFile (frame_path_of video_name frame_index) bucket
             (upload_key_of output_prefix video_name frame_index).

(** The effect of one emitted frame: written to [/tmp], uploaded, removed. *)
Definition emit (video_name : string) (frame : Frame) (frame_index : nat)
    (w : World) : World :=
  with_files (delete (frame_path_of video_name frame_index))
    (with_s3_objects
       <[upload_key_of output_prefix video_name frame_index := Image frame]>
       (log (upload_event video_name frame_index)
          (with_files <[frame_path_of video_name frame_index := Image frame]> w))).

Fixpoint emit_all (video_name : string) (frames : list Frame)
    (frame_index : nat) (w : World) : World :=
  match frames with
  | [] => w
  | frame :: frames' =>
      emit_all video_name frames' (S frame_index)
        (emit video_name frame frame_index w)
  end.
End RunVocabulary.

(** The states of the [while] loop at the start of an iteration. *)
Record LoopState : Type := {
  st_stream : list Frame;
  st_i : nat;
  st_frame_index : nat;
  st_world : World
}.

(** One completed iteration: [cap.read()] returned a frame and the body
    ran to its end. *)
Inductive iteration (bucket output_prefix : string) (sampling_rate : Z)
    (video_name : string) : LoopState → LoopState → Prop :=
  | iteration_intro frame stream i frame_index w i' frame_index' w' :
      while_body bucket output_prefix sampling_rate video_name frame
        i frame_index w = Ret (i', frame_index') w' →
      iteration bucket output_prefix sampling_rate video_name
        {| st_stream := frame :: stream; st_i := i;
           st_frame_index := frame_index; st_world := w |}
        {| st_stream := stream; st_i := i';
           st_frame_index := frame_index'; st_world := w' |}.

(** The world after [open(path, "a")] and [f.write(s)], when [path] is
    absent or a text. *)
Definition append_world (path s : string) (w : World) : World :=
  log (CacheAppend s)
    (with_files
       <[path := Text (match files w !! path with
                       | Some (Text old) => old +:+ s
                       | _ => s
                       end)]> w).

(** The ways the body of the [for] loop can go for the key [vk], from the
    world [w], each with its outcome; the loop is only reached when the
    download path names a file. *)
Inductive pass (bucket output_prefix : string) (sampling_rate : Z)
    (vk : string) (w : World) : Outcome unit → Prop :=
  | pass_check_raised e :
      already_completed ("/tmp/" +:+ basename vk) w = Raise e w →
      pass bucket output_prefix sampling_rate vk w (Raise e w)
  | pass_skipped :
      already_completed ("/tmp/" +:+ basename vk) w = Ret true w →
      pass bucket output_prefix sampling_rate vk w (Ret tt w)
  | pass_download_failed :
      already_completed ("/tmp/" +:+ basename vk) w = Ret false w →
      s3_fails w (length (trace w)) = true ∨ s3_objects w !! vk = None →
      pass bucket output_prefix sampling_rate vk w
        (Raise ClientError
           (log (DownloadFile bucket vk ("/tmp/" +:+ basename vk)) w))
  | pass_loop_raised obj e w2 :
      already_completed ("/tmp/" +:+ basename vk) w = Ret false w →
      s3_fails w (length (trace w)) = false →
      s3_objects w !! vk = Some obj →
      while_loop bucket output_prefix sampling_rate (basename vk) (stream_of obj) 0 0
        (with_files <["/tmp/" +:+ basename vk := obj]>
           (log (DownloadFile bucket vk ("/tmp/" +:+ basename vk)) w))
        = Raise e w2 →
      pass bucket output_prefix sampling_rate vk w (Raise e w2)
  | pass_completed obj w2 :
      already_completed ("/tmp/" +:+ basename vk) w = Ret false w →
      s3_fails w (length (trace w)) = false →
      s3_objects w !! vk = Some obj →
      while_loop bucket output_prefix sampling_rate (basename vk) (stream_of obj) 0 0
        (with_files <["/tmp/" +:+ basename vk := obj]>
           (log (DownloadFile bucket vk ("/tmp/" +:+ basename vk)) w))
        = Ret tt w2 →
      pass bucket output_prefix sampling_rate vk w
        (Ret tt (append_world cache_path ("/tmp/" +:+ basename vk +:+ nl)
                   (with_files (delete ("/tmp/" +:+ basename vk)) w2)))
  | pass_download_misplaced obj :
      already_completed ("/tmp/" +:+ basename vk) w = Ret false w →
      s3_fails w (length (trace w)) = false →
      s3_objects w !! vk = Some obj →
      is_directory_path ("/tmp/" +:+ basename vk) = true →
      pass bucket output_prefix sampling_rate vk w
        (Raise NotADirectoryError
           (log (DownloadFile bucket vk ("/tmp/" +:+ basename vk)) w)).

(** The world after a pass that downloads [obj] for the key [vk], uploads
    every sampled frame and reaches the end of the [for] body. *)
Definition completed_world (bucket output_prefix : string) (sampling_rate : Z)
    (vk : string) (obj : File) (w : World) : World :=
  append_world cache_path (("/tmp/" +:+ basename vk) +:+ nl)
    (with_files (delete ("/tmp/" +:+ basename vk))
       (emit_all bucket output_prefix (basename vk)
          (sampled sampling_rate 0 (stream_of obj)) 0
          (with_files <["/tmp/" +:+ basename vk := obj]>
             (log (DownloadFile bucket vk ("/tmp/" +:+ basename vk)) w)))).

(** The two operations on the cache file, under the names the
    specification gives them: the membership test at the top of the [for]
    body and the append at its end. *)
Definition isComplete (video_name : string) : M bool :=
  already_completed ("/tmp/" +:+ video_name).

Definition markComplete (video_name : string) : M unit :=
  Os.open_append cache_path (("/tmp/" +:+ video_name) +:+ nl).

(** ** Concrete worlds *)

Definition numbered_frames (n : nat) : list Frame :=
  (fun k : nat => "frame" +:+ pretty k) <$> seq 0 n.

Definition intact (n : nat) : Clip :=
  {| clip_frames := numbered_frames n; clip_damaged_at := None |}.


Definition fresh_world (objects : gmap string File) (fails : nat → bool) : World :=
  {| s3_objects := objects; files := ∅; trace := []; s3_fails := fails |}.

Definition never : nat → bool := fun _ => false.
Definition only_at (n : nat) : nat → bool := fun m => Nat.eqb m n.

(** The scenario of the specification: [input/a.mp4] with 20 frames. *)
Definition one_video : World :=
  fresh_world {[ "input/a.mp4" := Video (intact 20) ]} never.


(** Three videos of two frames; the fifth call (events are numbered from
    0: listing, download, upload, cache, download) fails. *)
Definition three_videos : World :=
  fresh_world {[ "input/a.mp4" := Video (intact 2);
                 "input/b.mp4" := Video (intact 2);
                 "input/c.mp4" := Video (intact 2) ]} (only_at 4).

(** The scenario of the specification, with the third call (events are
    numbered from 0: listing, download, upload), the first upload, failing. *)
Definition first_upload_fails : World :=
  fresh_world {[ "input/a.mp4" := Video (intact 20) ]} (only_at 2).

(** Two videos with the same basename under different prefixes. *)
Definition same_basename : World :=
  fresh_world
    {[ "in/a/v.mp4" := Video {| clip_frames := ["a0"; "a1"; "a2"]; clip_damaged_at := None |};
       "in/b/v.mp4" := Video {| clip_frames := ["b0"; "b1"]; clip_damaged_at := None |} ]}
    never.

(** ** Vocabulary of the further properties *)



(** The text of the cache file; an absent file reads as the empty text. *)
Definition cache_text (w : World) : string :=
  match files w !! cache_path with
  | Some (Text t) => t
  | _ => ""
  end.

(** The keys of the bucket that start with [prefix]. *)
Definition matching_keys (prefix : string) (w : World) : list string :=
  filter (fun k => String.prefix prefix k) (map_to_list (s3_objects w)).*1.

(** The line the script writes for the key [vk]. *)
Definition cache_line_of (vk : string) : string :=
  ("/tmp/" +:+ basename vk) +:+ nl.

(** A bucket where a frame of an earlier run sits under the input prefix,
    and a cache file whose last line has lost its terminator. *)
Definition frames_among_videos : World :=
  fresh_world {[ "in/v.mp4" := Video (intact 3);
                 "in/v.mp4_frame_0.jpg" := Image "old" ]} never.

Definition unterminated_cache : World :=
  {| s3_objects := {[ "input/a.mp4" := Video (intact 20) ]};
     files := {[ cache_path := Text (("/tmp/b.mp4" +:+ nl) +:+ "/tmp/a.mp4") ]};
     trace := []; s3_fails := never |}.

(** A bucket holding an object named like the cache file, and a cache file
    with one entry. *)
Definition cache_named_video : World :=
  {| s3_objects := {[ "input/extract_frames_from_videos_cache.txt" := Video (intact 2) ]};
     files := {[ cache_path := Text ("/tmp/a.mp4" +:+ nl) ]};
     trace := []; s3_fails := never |}.

#[global] Instance Event_eq_dec : EqDecision Event.
Proof. solve_decision. Defined.

(** ** Strings: facts *)

Lemma append_cons a (s t : string) : String a s +:+ t = String a (s +:+ t).
Proof. reflexivity. Qed.

Lemma append_nil_l (t : string) : "" +:+ t = t.
Proof. reflexivity. Qed.


Lemma append_assoc (s t u : string) : (s +:+ t) +:+ u = s +:+ t +:+ u.
Proof. induction s as [|a s IH]; [done | by rewrite !append_cons, IH]. Qed.

Lemma length_append (s t : string) :
  String.length (s +:+ t) = (String.length s + String.length t)%nat.
Proof. induction s as [|a s IH]; [done | rewrite append_cons; simpl; by rewrite IH]. Qed.

Lemma append_inv_tail (s1 s2 t : string) : s1 +:+ t = s2 +:+ t → s1 = s2.
Proof.
  revert s2; induction s1 as [|a s1 IH]; intros [|b s2] H.
  - done.
  - apply (f_equal String.length) in H.
    rewrite append_nil_l, length_append in H. simpl in H. lia.
  - apply (f_equal String.length) in H.
    rewrite append_nil_l, length_append in H. simpl in H. lia.
  - rewrite !append_cons in H. injection H as -> H. f_equal. by apply IH.
Qed.

Lemma append_ne_self (s t : string) : t ≠ "" → s ≠ s +:+ t.
Proof.
  intros Ht H. apply (f_equal String.length) in H.
  rewrite length_append in H. destruct t; [done | simpl in H; lia].
Qed.

Lemma append_eq_nil (s t : string) : s +:+ t = "" → s = "" ∧ t = "".
Proof. destruct s; [done | rewrite append_cons; discriminate]. Qed.

Lemma mentions_append c (s t : string) :
  mentions c (s +:+ t) = mentions c s || mentions c t.
Proof.
  induction s as [|a s IH]; [done|].
  rewrite append_cons. simpl. rewrite IH. by rewrite orb_assoc.
Qed.

Lemma last_char_append (s t : string) :
  t ≠ "" → last_char (s +:+ t) = last_char t.
Proof.
  intros Ht. induction s as [|a s IH]; [done|].
  rewrite append_cons. cbn [last_char]. rewrite IH.
  destruct (s +:+ t) eqn:E; [|done].
  by apply append_eq_nil in E as [_ ?].
Qed.

Lemma terminated_append_nl (s : string) : terminated (s +:+ nl) = true.
Proof.
  induction s as [|a s IH]; [done|].
  rewrite append_cons. cbn [terminated].
  destruct (s +:+ nl) eqn:E; [|done].
  by apply append_eq_nil in E as [_ ?].
Qed.

Lemma translate_newlines_nil (s : string) : translate_newlines s = "" → s = "".
Proof.
  induction s as [|a s IH]; [done|]. simpl.
  destruct (Ascii.eqb a CR); [|done].
  destruct s as [|b s]; [done|].
  destruct (Ascii.eqb b LF); [|done]. intros H. by apply IH in H.
Qed.

Lemma translate_newlines_terminated (s : string) :
  terminated s = true → terminated (translate_newlines s) = true.
Proof.
  induction s as [|a s IH]; [done|]. intros H.
  assert (s ≠ "" → terminated (translate_newlines s) = true) as IH'.
  { intros Hs. apply IH. destruct s; [done | exact H]. }
  cbn [translate_newlines].
  destruct (Ascii.eqb a CR).
  - destruct s as [|b s]; [done|].
    destruct (Ascii.eqb b LF); [by apply IH'|].
    cbn [terminated].
    destruct (translate_newlines (String b s)) eqn:E; [done|].
    by apply IH'.
  - cbn [terminated].
    destruct (translate_newlines s) eqn:E.
    + apply translate_newlines_nil in E. subst s. exact H.
    + apply IH'. intros ->. discriminate.
Qed.

Lemma split_keepends_terminated (s : string) :
  terminated s = true → Forall (fun l => mentions LF l = true) (split_keepends s).
Proof.
  induction s as [|a s IH]; [constructor|]. intros H.
  cbn [split_keepends].
  destruct (Ascii.eqb a LF) eqn:Ea.
  - constructor; [done|]. apply IH. destruct s; [done | exact H].
  - destruct s as [|b s]; [simpl in H; congruence|].
    specialize (IH H).
    destruct (split_keepends (String b s)) as [|l ls] eqn:E.
    + simpl in E. destruct (Ascii.eqb b LF); [done|].
      by destruct (split_keepends s).
    + inversion IH as [|? ? Hl Hls]; subst. constructor; [|done].
      simpl. by rewrite Hl, orb_true_r.
Qed.

(** A path without a line feed is never equal to a line of a text of
    complete lines, which is what [readlines] returns for the cache. *)
Lemma not_in_readlines (p content : string) :
  mentions LF p = false → terminated content = true → p ∉ readlines content.
Proof.
  intros Hp Hc Hin.
  pose proof (split_keepends_terminated _ (translate_newlines_terminated _ Hc)) as HF.
  rewrite Forall_forall in HF. apply HF in Hin. congruence.
Qed.

(** The functions on concrete strings. *)

Example basename_of_a_key : basename "input/2024/a.mp4" = "a.mp4".
Proof. reflexivity. Qed.

Example basename_without_slash : basename "a.mp4" = "a.mp4".
Proof. reflexivity. Qed.

Example basename_of_a_prefix_key : basename "input/" = "".
Proof. reflexivity. Qed.

Example readlines_keeps_terminators :
  readlines ("/tmp/a.mp4" +:+ nl +:+ "/tmp/b.mp4" +:+ String CR nl +:+ "/tmp/c.mp4")
  = ["/tmp/a.mp4" +:+ nl; "/tmp/b.mp4" +:+ nl; "/tmp/c.mp4"].
Proof. reflexivity. Qed.

(** Only a last line without terminator, which the script never writes,
    is equal to a download path. *)
Example unterminated_last_line_matches :
  let w := {| s3_objects := ∅;
              files := {[ cache_path := Text ("/tmp/a.mp4" +:+ nl +:+ "/tmp/b.mp4") ]};
              trace := []; s3_fails := never |} in
  already_completed "/tmp/b.mp4" w = Ret true w ∧
  already_completed "/tmp/a.mp4" w = Ret false w.
Proof. split; vm_compute; reflexivity. Qed.

(** ** Paths and keys *)

Lemma rfind_ge (c : ascii) (s : string) : -1 ≤ rfind c s.
Proof.
  induction s as [|a s IH]; cbn [rfind]; [lia|].
  destruct (Z.leb_spec 0 (rfind c s)); [lia|]. destruct (Ascii.eqb a c); lia.
Qed.

Lemma rfind_mentions (c : ascii) (s : string) :
  (0 <=? rfind c s) = mentions c s.
Proof.
  induction s as [|a s IH]; cbn [rfind mentions]; [done|].
  rewrite <- IH. destruct (Z.leb_spec 0 (rfind c s)) as [H|H].
  - rewrite orb_true_r. apply Z.leb_le. lia.
  - rewrite orb_false_r. by destruct (Ascii.eqb a c).
Qed.

(** [basename], character by character. *)
Lemma basename_cons (a : ascii) (s : string) :
  basename (String a s) =
  if mentions "/" s then basename s
  else if Ascii.eqb a "/" then s else String a s.
Proof.
  unfold basename. cbn [rfind]. rewrite rfind_mentions.
  pose proof (rfind_ge "/" s) as Hge.
  destruct (mentions "/" s) eqn:Hm.
  - rewrite <- rfind_mentions in Hm. apply Z.leb_le in Hm.
    replace (Z.to_nat (rfind "/" s + 1 + 1)) with (S (Z.to_nat (rfind "/" s + 1))) by lia.
    done.
  - by destruct (Ascii.eqb a "/").
Qed.

Lemma basename_no_slash (p : string) : mentions "/" p = false → basename p = p.
Proof.
  destruct p as [|a p]; [done|]. rewrite basename_cons. cbn [mentions].
  intros H. apply orb_false_elim in H as [Ha Hp]. by rewrite Hp, Ha.
Qed.

Lemma basename_mentions_slash (p : string) : mentions "/" (basename p) = false.
Proof.
  induction p as [|a p IH]; [done|]. rewrite basename_cons.
  destruct (mentions "/" p) eqn:Hm; [done|].
  destruct (Ascii.eqb_spec a "/") as [->|Ha]; [done|].
  cbn [mentions]. rewrite Hm. by destruct (Ascii.eqb_spec a "/").
Qed.






Lemma frame_name_of_inj (video_name : string) : Inj (=) (=) (frame_name_of video_name).
Proof.
  intros j k H. unfold frame_name_of in H.
  apply String.app_inj in H. apply String.app_inj in H.
  apply append_inv_tail in H. by apply (inj pretty) in H.
Qed.

Lemma frame_path_of_inj (video_name : string) : Inj (=) (=) (frame_path_of video_name).
Proof.
  intros j k H. unfold frame_path_of in H.
  apply String.app_inj in H. by apply frame_name_of_inj in H.
Qed.

Lemma upload_key_of_inj (output_prefix video_name : string) :
  Inj (=) (=) (upload_key_of output_prefix video_name).
Proof.
  intros j k H. unfold upload_key_of in H.
  apply String.app_inj in H. apply String.app_inj in H.
  by apply frame_name_of_inj in H.
Qed.

Lemma download_path_ne_frame_path (video_name : string) (k : nat) :
  "/tmp/" +:+ video_name ≠ frame_path_of video_name k.
Proof.
  unfold frame_path_of, frame_name_of. intros H.
  apply String.app_inj in H. by apply append_ne_self in H.
Qed.

Lemma frame_path_ne_cache_path (video_name : string) (k : nat) :
  frame_path_of video_name k ≠ cache_path.
Proof.
  intros H. apply (f_equal last_char) in H.
  unfold frame_path_of, frame_name_of in H.
  rewrite <- !append_assoc in H.
  by rewrite last_char_append in H.
Qed.

(** ** Sampling: arithmetic *)




Lemma mod_opp_r_zero_iff (x r : Z) : x mod (- r) = 0 ↔ x mod r = 0.
Proof.
  destruct (Z.eq_dec r 0) as [->|Hr]; [done|].
  rewrite !Z.mod_divide by lia. split; intros [q ->].
  - exists (- q). lia.
  - exists (- q). lia.
Qed.

Lemma sampled_opp (rate : Z) (i : nat) (stream : list Frame) :
  sampled (- rate) i stream = sampled rate i stream.
Proof.
  revert i; induction stream as [|f s IH]; intros i; [done|].
  cbn [sampled]. rewrite !IH.
  destruct (Z.eqb_spec (Z.of_nat i mod - rate) 0) as [H|H];
    destruct (Z.eqb_spec (Z.of_nat i mod rate) 0) as [H'|H']; try done.
  - exfalso. apply H'. by apply mod_opp_r_zero_iff.
  - exfalso. apply H. by apply mod_opp_r_zero_iff.
Qed.





Lemma count_sampled_S (rate : Z) (i : nat) :
  count_sampled rate (S i) =
  if Z.of_nat i mod rate =? 0 then S (count_sampled rate i) else count_sampled rate i.
Proof.
  unfold count_sampled. rewrite seq_S, filter_app, length_app. simpl.
  rewrite filter_cons, filter_nil.
  destruct (Z.eqb_spec (Z.of_nat i mod rate) 0) as [H|H];
    destruct (decide _); simpl; try done; lia.
Qed.

(** ** The loop over the frames *)

Section Loop.
Context (bucket output_prefix : string) (sampling_rate : Z) (video_name : string).

Local Abbreviation body := (while_body bucket output_prefix sampling_rate video_name).
Local Abbreviation loop := (while_loop bucket output_prefix sampling_rate video_name).
Local Abbreviation emit1 := (emit bucket output_prefix video_name).
Local Abbreviation emits := (emit_all bucket output_prefix video_name).
Local Abbreviation uploading := (upload_event bucket output_prefix video_name).
Local Abbreviation frame_path := (frame_path_of video_name).
Local Abbreviation upload_key := (upload_key_of output_prefix video_name).

(** The body of the loop, case by case. *)
Lemma while_body_eq (frame : Frame) (i frame_index : nat) (w : World) :
  body frame i frame_index w =
  if sampling_rate =? 0 then Raise ZeroDivisionError w
  else if Z.of_nat i mod sampling_rate =? 0 then
    if s3_fails w (length (trace w))
    then Raise S3UploadFailedError
           (log (uploading frame_index)
              (with_files <[frame_path frame_index := Image frame]> w))
    else Ret (S i, S frame_index) (emit1 frame frame_index w)
  else Ret (S i, frame_index) w.
Proof.
  unfold while_body, py_mod, bind.
  destruct (sampling_rate =? 0); [done|]. unfold ret.
  destruct (Z.of_nat i mod sampling_rate =? 0); [|done].
  unfold Cv2.imwrite, S3.upload_file, Os.remove. cbn [files with_files trace s3_fails].
  fold (frame_path_of video_name frame_index).
  rewrite lookup_insert_eq. 
  destruct (s3_fails w (length (trace w))); [done|].
  cbn [files with_s3_objects log with_files]. rewrite lookup_insert_eq. done.
Qed.

Lemma emit_trace frame k w : trace (emit1 frame k w) = trace w ++ [uploading k].
Proof. done. Qed.
Lemma emit_files frame k w : files (emit1 frame k w) = delete (frame_path k) (files w).
Proof. cbn. by rewrite delete_insert_eq. Qed.
Lemma emit_s3_objects frame k w :
  s3_objects (emit1 frame k w) = <[upload_key k := Image frame]> (s3_objects w).
Proof. done. Qed.

Lemma emit_all_trace frames k w :
  trace (emits frames k w) = trace w ++ (uploading <$> seq k (length frames)).
Proof.
  revert k w; induction frames as [|f fs IH]; intros k w; simpl.
  - by rewrite app_nil_r.
  - rewrite IH, emit_trace. by rewrite <- app_assoc.
Qed.


Lemma emit_all_files_other frames k w p :
  (∀ j, p ≠ frame_path j) → files (emits frames k w) !! p = files w !! p.
Proof.
  intros Hp. revert k w; induction frames as [|f fs IH]; intros k w; simpl; [done|].
  rewrite IH, emit_files. by rewrite lookup_delete_ne.
Qed.

Lemma emit_all_files_frame frames k w j :
  (k ≤ j < k + length frames)%nat → files (emits frames k w) !! frame_path j = None.
Proof.
  revert k w; induction frames as [|f fs IH]; intros k w Hj; simpl in *; [lia|].
  destruct (decide (j = k)) as [->|Hne].
  - clear IH Hj. generalize (emit1 f k w) (emit_files f k w). intros w1 Hw1.
    assert (files w1 !! frame_path k = None) as Hnone.
    { rewrite Hw1. apply lookup_delete_eq. }
    clear Hw1. generalize (S k). revert w1 Hnone.
    induction fs as [|g gs IH]; intros w1 Hnone k'; simpl; [done|].
    apply IH. rewrite emit_files.
    destruct (decide (frame_path k' = frame_path k)) as [->|Hd].
    + apply lookup_delete_eq.
    + by rewrite lookup_delete_ne.
  - apply IH. lia.
Qed.

Lemma emit_all_s3_other frames k w key :
  (∀ j, (k ≤ j < k + length frames)%nat → key ≠ upload_key j) →
  s3_objects (emits frames k w) !! key = s3_objects w !! key.
Proof.
  revert k w; induction frames as [|f fs IH]; intros k w Hk; simpl in *; [done|].
  rewrite IH.
  - rewrite emit_s3_objects. rewrite lookup_insert_ne; [done|].
    intros Heq. eapply (Hk k); [lia | done].
  - intros j Hj. apply Hk. lia.
Qed.

(** Every emitted frame is in the bucket afterwards, under its own key. *)
Lemma emit_all_s3_lookup frames k w j frame :
  frames !! j = Some frame →
  s3_objects (emits frames k w) !! upload_key (k + j) = Some (Image frame).
Proof.
  revert k w j; induction frames as [|f fs IH]; intros k w j Hj; [done|].
  destruct j as [|j]; simpl in *.
  - injection Hj as ->. rewrite emit_all_s3_other.
    + rewrite emit_s3_objects, Nat.add_0_r. apply lookup_insert_eq.
    + intros j Hj Heq. apply upload_key_of_inj in Heq. lia.
  - replace (k + S j)%nat with (S k + j)%nat by lia. by apply IH.
Qed.

(** When the loop runs to its end, it has emitted exactly the sampled
    frames, numbered from [frame_index] on. *)
Lemma while_loop_ret stream i frame_index w w' :
  loop stream i frame_index w = Ret tt w' →
  w' = emits (sampled sampling_rate i stream) frame_index w.
Proof.
  revert i frame_index w; induction stream as [|f s IH]; intros i k w H.
  - by injection H as <-.
  - cbn [while_loop] in H. unfold bind in H.
    rewrite while_body_eq in H. cbn [sampled].
    destruct (sampling_rate =? 0); [done|].
    destruct (Z.of_nat i mod sampling_rate =? 0).
    + destruct (s3_fails w (length (trace w))); [done|].
      cbn [fst snd emit_all] in *. by apply IH.
    + cbn [fst snd] in H. by apply IH.
Qed.



(** However the loop ends, it adds only uploads to the trace and leaves
    alone every file that is not one of its frame images. *)
Lemma while_loop_trace stream i frame_index w :
  ∃ evs, trace (world_of (loop stream i frame_index w)) = trace w ++ evs
         ∧ Forall is_upload evs.
Proof.
  revert i frame_index w; induction stream as [|f s IH]; intros i k w.
  - exists []. by rewrite app_nil_r.
  - cbn [while_loop]. unfold bind. rewrite while_body_eq.
    destruct (sampling_rate =? 0).
    { exists []. by rewrite app_nil_r. }
    destruct (Z.of_nat i mod sampling_rate =? 0).
    + destruct (s3_fails w (length (trace w))).
      * exists [uploading k]. split; [done|]. by repeat constructor.
      * cbn [fst snd]. destruct (IH (S i) (S k) (emit1 f k w)) as (evs & -> & Hevs).
        exists (uploading k :: evs). rewrite emit_trace, <- app_assoc.
        split; [done|]. by constructor.
    + cbn [fst snd]. apply IH.
Qed.

Lemma while_loop_files_other stream i frame_index w p :
  (∀ j, p ≠ frame_path j) →
  files (world_of (loop stream i frame_index w)) !! p = files w !! p.
Proof.
  intros Hp. revert i frame_index w; induction stream as [|f s IH]; intros i k w.
  - done.
  - cbn [while_loop]. unfold bind. rewrite while_body_eq.
    destruct (sampling_rate =? 0); [done|].
    destruct (Z.of_nat i mod sampling_rate =? 0).
    + destruct (s3_fails w (length (trace w))).
      * cbn. by rewrite lookup_insert_ne.
      * cbn [fst snd]. rewrite IH, emit_files. by rewrite lookup_delete_ne.
    + cbn [fst snd]. apply IH.
Qed.

(** The two ways the loop can die: the division by a zero rate, before
    anything is written, or a failed upload, which leaves the frame image
    it was uploading behind. *)
Lemma while_loop_raise stream i frame_index w e w' :
  loop stream i frame_index w = Raise e w' →
  (e = ZeroDivisionError ∧ sampling_rate = 0 ∧ w' = w) ∨
  (e = S3UploadFailedError ∧
   ∃ k frame, files w' !! frame_path k = Some (Image frame)).
Proof.
  revert i frame_index w; induction stream as [|f s IH]; intros i k w H.
  - done.
  - cbn [while_loop] in H. unfold bind in H. rewrite while_body_eq in H.
    destruct (Z.eqb_spec sampling_rate 0) as [Hz|Hnz].
    { injection H as <- <-. by left. }
    destruct (Z.of_nat i mod sampling_rate =? 0).
    + destruct (s3_fails w (length (trace w))).
      * injection H as <- <-. right. split; [done|].
        exists k, f. cbn. apply lookup_insert_eq.
      * cbn [fst snd] in H. apply IH in H as [(_ & Hz & _)|H]; [done | by right].
    + cbn [fst snd] in H. by apply IH in H.
Qed.

End Loop.

(** ** The check against the cache file *)

Lemma already_completed_eq (p : string) (w : World) :
  already_completed p w =
  match files w !! cache_path with
  | None => Ret false w
  | Some (Text s) => Ret (bool_decide (p ∈ readlines s)) w
  | Some _ => Raise UnicodeDecodeError w
  end.
Proof.
  unfold already_completed, bind, Os.path_exists, Os.open_readlines, ret.
  destruct (files w !! cache_path) as [f|] eqn:E.
  - rewrite bool_decide_eq_true_2 by eauto. rewrite E. by destruct f.
  - rewrite bool_decide_eq_false_2; [done|]. by intros [? ?].
Qed.

Lemma already_completed_world (p : string) (w : World) :
  world_of (already_completed p w) = w.
Proof.
  rewrite already_completed_eq.
  destruct (files w !! cache_path) as [[| |]|]; done.
Qed.

Lemma already_completed_ret (p : string) (w w' : World) (b : bool) :
  already_completed p w = Ret b w' →
  w' = w ∧ (files w !! cache_path = None ∨ ∃ t, files w !! cache_path = Some (Text t)).
Proof.
  rewrite already_completed_eq.
  destruct (files w !! cache_path) as [[| |t]|]; intros H; simplify_eq; eauto.
Qed.

Lemma already_completed_raise (p : string) (w w' : World) (e : Exn) :
  already_completed p w = Raise e w' → w' = w ∧ e = UnicodeDecodeError.
Proof.
  rewrite already_completed_eq.
  destruct (files w !! cache_path) as [[| |t]|]; intros H; by simplify_eq.
Qed.

(** The defect of the check: [readlines] keeps the line terminators, the
    path looked for has none. *)
Lemma already_completed_false (p : string) (w : World) :
  mentions LF p = false → cache_well_formed w →
  already_completed p w = Ret false w.
Proof.
  intros Hp Hw. unfold cache_well_formed in Hw. rewrite already_completed_eq.
  destruct (files w !! cache_path) as [[| |t]|] eqn:E; [done|done| |done].
  rewrite bool_decide_eq_false_2; [done|]. by apply not_in_readlines.
Qed.

Lemma open_append_eq (path s : string) (w : World) :
  files w !! path = None ∨ (∃ t, files w !! path = Some (Text t)) →
  Os.open_append path s w = Ret tt (append_world path s w).
Proof.
  unfold Os.open_append, append_world. by intros [->|[t ->]].
Qed.

(** ** One pass of the [for] loop *)

Section Pass.
Context (bucket output_prefix : string) (sampling_rate : Z).

Local Abbreviation body := (for_body bucket output_prefix sampling_rate).
Local Abbreviation loop := (while_loop bucket output_prefix sampling_rate).

Lemma capture_loop (vk : string) (obj : File) (rest : M unit) (w : World) :
  files w !! ("/tmp/" +:+ basename vk) = Some obj →
  (do cap <- Cv2.VideoCapture ("/tmp/" +:+ basename vk);
   (if Cv2.isOpened cap then loop (basename vk) (Cv2.stream cap) 0%nat 0%nat
    else ret tt) ;; rest) w
  = (loop (basename vk) (stream_of obj) 0%nat 0%nat ;; rest) w.
Proof.
  intros Hf. unfold bind, Cv2.VideoCapture. rewrite Hf. by destruct obj.
Qed.

(** The body of the [for] loop goes one of the six ways of [pass]. *)
Lemma for_body_pass (vk : string) (w : World) :
  pass bucket output_prefix sampling_rate vk w (body vk w).
Proof.
  unfold for_body. unfold bind at 1.
  destruct (already_completed _ w) as [b w0|e w0] eqn:Hc.
  2:{ apply already_completed_raise in Hc as Hw. destruct Hw as [-> _]. by constructor. }
  apply already_completed_ret in Hc as Hw. destruct Hw as [-> Hcache].
  destruct b; [by constructor|].
  unfold bind at 1. unfold S3.download_file.
  destruct (s3_fails w (length (trace w))) eqn:Hfail.
  { apply pass_download_failed; auto. }
  destruct (s3_objects w !! vk) as [obj|] eqn:Hobj.
  2:{ apply pass_download_failed; auto. }
  destruct (is_directory_path ("/tmp/" +:+ basename vk)) eqn:Hdir.
  { by eapply pass_download_misplaced. }
  set (w1 := with_files _ (log _ w)).
  assert (files w1 !! ("/tmp/" +:+ basename vk) = Some obj) as Hdl.
  { apply lookup_insert_eq. }
  rewrite (capture_loop vk obj _ w1 Hdl). unfold bind at 1.
  destruct (while_loop _ _ _ _ _ 0%nat 0%nat w1) as [[] w2|e w2] eqn:Hloop.
  2:{ by eapply pass_loop_raised. }
  pose proof (while_loop_files_other bucket output_prefix sampling_rate
                (basename vk) (stream_of obj) 0 0 w1) as Hother.
  rewrite Hloop in Hother. cbn [world_of] in Hother.
  unfold bind at 1. unfold Os.remove.
  rewrite Hother, Hdl by apply download_path_ne_frame_path.
  rewrite open_append_eq.
  { by eapply pass_completed. }
  cbn [with_files files].
  destruct (decide ("/tmp/" +:+ basename vk = cache_path)) as [Heq|Hne].
  { left. rewrite Heq. apply lookup_delete_eq. }
  rewrite lookup_delete_ne by done.
  rewrite Hother by (intros j Hj; by eapply frame_path_ne_cache_path).
  unfold w1. cbn [with_files files log]. by rewrite lookup_insert_ne.
Qed.
End Pass.

(** ** The [for] loop *)

(** From [H : while_loop ... w1 = o], what the loop did to the trace and
    to the files that are not frame images. *)
Ltac loop_facts H :=
  match type of H with
  | while_loop ?b ?o ?r ?n ?s ?i ?k ?w1 = _ =>
      let evs := fresh "evs" in
      let Hevs := fresh "Hevs" in
      let Hup := fresh "Hup" in
      let Hother := fresh "Hother" in
      pose proof (while_loop_trace b o r n s i k w1) as (evs & Hevs & Hup);
      pose proof (while_loop_files_other b o r n s i k w1) as Hother;
      rewrite H in Hevs, Hother; cbn [world_of] in Hevs, Hother
  end.

Section ForLoop.
Context (bucket output_prefix : string) (sampling_rate : Z).

Local Abbreviation body := (for_body bucket output_prefix sampling_rate).
Local Abbreviation run := (for_loop bucket output_prefix sampling_rate).


Lemma for_loop_cons (vk : string) (post : list string) (w : World) :
  run (vk :: post) w =
  match body vk w with
  | Ret _ w1 => run post w1
  | Raise e w1 => Raise e w1
  end.
Proof. done. Qed.

End ForLoop.

(** ** What a pass leaves behind *)

Section PassFacts.
Context (bucket output_prefix : string) (sampling_rate : Z).

Local Abbreviation body := (for_body bucket output_prefix sampling_rate).
Local Abbreviation done_world := (completed_world bucket output_prefix sampling_rate).
Local Abbreviation uploading := (upload_event bucket output_prefix).

Lemma completed_world_trace (vk : string) (obj : File) (w : World) :
  trace (done_world vk obj w) =
  trace w ++
    DownloadFile bucket vk ("/tmp/" +:+ basename vk)
    :: (uploading (basename vk) <$>
          seq 0 (length (sampled sampling_rate 0 (stream_of obj))))
    ++ [CacheAppend (("/tmp/" +:+ basename vk) +:+ nl)].
Proof.
  unfold completed_world, append_world. cbn [trace log with_files].
  rewrite emit_all_trace. cbn [trace log with_files].
  by rewrite <- !app_assoc.
Qed.

Lemma completed_world_s3_objects (vk : string) (obj : File) (w : World) k frame :
  sampled sampling_rate 0 (stream_of obj) !! k = Some frame →
  s3_objects (done_world vk obj w) !! upload_key_of output_prefix (basename vk) k
  = Some (Image frame).
Proof.
  intros Hk. unfold completed_world, append_world. cbn [s3_objects log with_files].
  by apply (emit_all_s3_lookup _ _ _ _ 0).
Qed.

(** The body of the [for] loop returns in two ways only: the [continue],
    or the whole pass. *)
Lemma for_body_ret_inv (vk : string) (w w' : World) :
  body vk w = Ret tt w' →
  (already_completed ("/tmp/" +:+ basename vk) w = Ret true w ∧ w' = w) ∨
  (already_completed ("/tmp/" +:+ basename vk) w = Ret false w ∧
   s3_fails w (length (trace w)) = false ∧
   ∃ obj, s3_objects w !! vk = Some obj ∧ w' = done_world vk obj w).
Proof.
  intros H. pose proof (for_body_pass bucket output_prefix sampling_rate vk w) as Hp.
  rewrite H in Hp. inversion Hp as [| Hc | | |obj w2 Hc Hf Hobj Hloop|]; subst.
  - by left.
  - right. split; [done|]. split; [done|]. exists obj. split; [done|].
    apply while_loop_ret in Hloop. by subst w2.
Qed.


Lemma for_body_skipped (vk : string) (w : World) :
  already_completed ("/tmp/" +:+ basename vk) w = Ret true w →
  body vk w = Ret tt w.
Proof.
  intros Hc. unfold for_body, bind. by rewrite Hc.
Qed.

End PassFacts.

(** ** The completion ledger *)

Lemma cache_well_formed_append (line : string) (w : World) :
  cache_well_formed (append_world cache_path (line +:+ nl) w).
Proof.
  unfold cache_well_formed, append_world. cbn. rewrite lookup_insert_eq.
  destruct (files w !! cache_path) as [[| |old]|];
    rewrite <- ?append_assoc; apply terminated_append_nl.
Qed.

Lemma cache_well_formed_cases (w : World) :
  cache_well_formed w →
  files w !! cache_path = None ∨ ∃ t, files w !! cache_path = Some (Text t).
Proof.
  unfold cache_well_formed.
  destruct (files w !! cache_path) as [[| |t]|]; intros H; eauto; done.
Qed.

Lemma download_path_no_LF (video_name : string) :
  mentions LF video_name = false → mentions LF ("/tmp/" +:+ video_name) = false.
Proof. intros H. by rewrite mentions_append, H. Qed.

(** C1 (the code departs from the claim).  The claim wants [isComplete v]
    to be true once [markComplete v] has run.  In the code the entry is
    written with a line feed and compared with the lines as [readlines]
    returns them, line feed included: for every video name without a line
    feed, marking succeeds, the entry is in the cache file, and the test
    still answers false. *)
Theorem marked_video_is_not_found (video_name : string) (w : World) :
  mentions LF video_name = false →
  cache_well_formed w →
  let w1 := append_world cache_path (("/tmp/" +:+ video_name) +:+ nl) w in
  markComplete video_name w = Ret tt w1 ∧
  cache_well_formed w1 ∧
  isComplete video_name w1 = Ret false w1.
Proof.
  intros Hname Hw w1. split; [|split].
  - apply open_append_eq. by apply cache_well_formed_cases.
  - apply cache_well_formed_append.
  - apply already_completed_false.
    + by apply download_path_no_LF.
    + apply cache_well_formed_append.
Qed.

Lemma marked_video_is_not_found_witness :
  mentions LF "a.mp4" = false ∧
  cache_well_formed (fresh_world ∅ never) ∧
  let w1 := append_world cache_path (("/tmp/" +:+ "a.mp4") +:+ nl) (fresh_world ∅ never) in
  files w1 !! cache_path = Some (Text ("/tmp/a.mp4" +:+ nl)) ∧
  markComplete "a.mp4" (fresh_world ∅ never) = Ret tt w1 ∧
  isComplete "a.mp4" w1 = Ret false w1.
Proof.
  split; [reflexivity|]. split; [exact I|].
  split; [reflexivity|].
  destruct (marked_video_is_not_found "a.mp4" (fresh_world ∅ never))
    as (H1 & _ & H3); [reflexivity | exact I |].
  split; [exact H1 | exact H3].
Defined.

(** ** Reruns *)

(** Whatever the cache file lists, a video whose name has no line feed is
    not skipped: the first thing its pass does is the download. *)
Lemma unskipped_pass_downloads (bucket output_prefix : string) (sampling_rate : Z)
    (vk : string) (w : World) :
  mentions LF (basename vk) = false → cache_well_formed w →
  ∃ evs, new_events (for_body bucket output_prefix sampling_rate vk) w
         = DownloadFile bucket vk ("/tmp/" +:+ basename vk) :: evs.
Proof.
  intros Hname Hw.
  pose proof (already_completed_false _ w (download_path_no_LF _ Hname) Hw) as Hfalse.
  unfold new_events.
  destruct (for_body_pass bucket output_prefix sampling_rate vk w)
    as [e Hc|Hc|Hc Hd|obj e w2 Hc Hf Hobj Hloop|obj w2 Hc Hf Hobj Hloop|obj Hc Hf Hobj Hdir];
    cbn [world_of]; [congruence|congruence|..].
  - exists []. cbn. by rewrite drop_app_length.
  - loop_facts Hloop. rewrite Hevs. cbn. exists evs.
    by rewrite <- app_assoc, drop_app_length.
  - loop_facts Hloop. cbn. rewrite Hevs. cbn. exists (evs ++ [CacheAppend (("/tmp/" +:+ basename vk) +:+ nl)]).
    by rewrite <- !app_assoc, drop_app_length.
  - exists []. cbn. by rewrite drop_app_length.
Qed.

(** C2 (the code departs from the claim).  The claim wants a second run to
    skip, without any S3 call, every video the first run completed.  In the
    code, after a pass that completed the video [vk] and wrote its entry to
    the cache file, the next pass for [vk] does not skip: it starts with the
    download of [vk] again. *)
Theorem completed_video_is_downloaded_again
    (bucket output_prefix : string) (sampling_rate : Z) (vk : string) (w w1 : World) :
  mentions LF (basename vk) = false →
  cache_well_formed w →
  for_body bucket output_prefix sampling_rate vk w = Ret tt w1 →
  (∃ old, files w1 !! cache_path
          = Some (Text (old +:+ ("/tmp/" +:+ basename vk) +:+ nl))) ∧
  ∃ evs, new_events (for_body bucket output_prefix sampling_rate vk) w1
         = DownloadFile bucket vk ("/tmp/" +:+ basename vk) :: evs.
Proof.
  intros Hname Hw Hrun.
  pose proof (already_completed_false _ w (download_path_no_LF _ Hname) Hw) as Hfalse.
  apply for_body_ret_inv in Hrun as [[Hc _]|(_ & _ & obj & Hobj & ->)]; [congruence|].
  split.
  - unfold completed_world, append_world. cbn [files log with_files].
    rewrite lookup_insert_eq.
    match goal with
    | |- context [match ?o with _ => _ end] => destruct o as [[| |old]|]
    end; try (exists ""; reflexivity). by exists old.
  - apply unskipped_pass_downloads; [done|].
    apply cache_well_formed_append.
Qed.

Lemma completed_video_is_downloaded_again_witness :
  let pass1 := for_body "b" "frames" 5 "input/a.mp4" in
  let w1 := world_of (pass1 one_video) in
  mentions LF (basename "input/a.mp4") = false ∧
  cache_well_formed one_video ∧
  pass1 one_video = Ret tt w1 ∧
  (∃ old, files w1 !! cache_path
          = Some (Text (old +:+ ("/tmp/" +:+ basename "input/a.mp4") +:+ nl))) ∧
  ∃ evs, new_events pass1 w1
         = DownloadFile "b" "input/a.mp4" ("/tmp/" +:+ basename "input/a.mp4") :: evs.
Proof.
  intros pass1 w1.
  assert (pass1 one_video = Ret tt w1) as Hrun by (vm_compute; reflexivity).
  split; [reflexivity|]. split; [exact I|]. split; [exact Hrun|].
  exact (completed_video_is_downloaded_again "b" "frames" 5 "input/a.mp4"
           one_video w1 eq_refl I Hrun).
Defined.

(** The scenario of the specification, run twice: the second run lists,
    downloads and uploads all over again. *)
Example second_run_of_the_scenario :
  new_events (main "b" "input" "frames" 5) (world_of (main "b" "input" "frames" 5 one_video))
  = [ListObjects "b" "input";
     DownloadFile "b" "input/a.mp4" "/tmp/a.mp4";
     UploadFile "/tmp/a.mp4_frame_0.jpg" "b" "frames/a.mp4_frame_0.jpg";
     UploadFile "/tmp/a.mp4_frame_1.jpg" "b" "frames/a.mp4_frame_1.jpg";
     UploadFile "/tmp/a.mp4_frame_2.jpg" "b" "frames/a.mp4_frame_2.jpg";
     UploadFile "/tmp/a.mp4_frame_3.jpg" "b" "frames/a.mp4_frame_3.jpg";
     CacheAppend ("/tmp/a.mp4" +:+ nl)].
Proof. vm_compute. reflexivity. Qed.

(** ** Decode failures *)




(** ** Failures *)






(** A key that ends with a slash, such as the marker object of a folder,
    has an empty basename: its download targets the directory [/tmp/] and
    the pass dies of [NotADirectoryError], with no file written. *)
Example folder_marker_fails_the_download :
  let w := fresh_world {[ "input/" := Text "" ]} never in
  basename "input/" = "" ∧
  for_body "b" "frames" 5 "input/" w
  = Raise NotADirectoryError (log (DownloadFile "b" "input/" "/tmp/") w).
Proof. split; vm_compute; reflexivity. Qed.

(** ** Scratch files *)

(** C5, as stated, fails: the first upload fails, the run dies, and both
    the downloaded video and the frame image being uploaded stay in
    [/tmp]. *)
Lemma failed_upload_leaves_scratch_files :
  main "b" "input" "frames" 5 first_upload_fails
  = Raise S3UploadFailedError (world_of (main "b" "input" "frames" 5 first_upload_fails)) ∧
  files (world_of (main "b" "input" "frames" 5 first_upload_fails)) !! "/tmp/a.mp4"
  = Some (Video (intact 20)) ∧
  files (world_of (main "b" "input" "frames" 5 first_upload_fails)) !! "/tmp/a.mp4_frame_0.jpg"
  = Some (Image "frame0").
Proof. repeat split; vm_compute; reflexivity. Qed.

Lemma completed_world_files_video
    (bucket output_prefix : string) (sampling_rate : Z) (vk : string) (obj : File) (w : World) :
  "/tmp/" +:+ basename vk ≠ cache_path →
  files (completed_world bucket output_prefix sampling_rate vk obj w)
    !! ("/tmp/" +:+ basename vk) = None.
Proof.
  intros Hne. unfold completed_world, append_world. cbn [files log with_files].
  rewrite lookup_insert_ne by done. apply lookup_delete_eq.
Qed.

Lemma completed_world_files_frame
    (bucket output_prefix : string) (sampling_rate : Z) (vk : string) (obj : File)
    (w : World) (k : nat) :
  (k < length (sampled sampling_rate 0 (stream_of obj)))%nat →
  files (completed_world bucket output_prefix sampling_rate vk obj w)
    !! frame_path_of (basename vk) k = None.
Proof.
  intros Hk. unfold completed_world, append_world. cbn [files log with_files].
  rewrite lookup_insert_ne by (intros H; symmetry in H; by eapply frame_path_ne_cache_path).
  rewrite lookup_delete_ne by apply download_path_ne_frame_path.
  apply emit_all_files_frame. lia.
Qed.

(** C5 (amended).  The script deletes its scratch files only on the way
    to the end of a pass.  After a pass that was not skipped and returned
    (every sampled frame uploaded, decoding complete or cut short), neither
    the downloaded video nor any frame image of the pass remains.  When an
    upload fails, the downloaded video and the frame image being uploaded
    remain.  When the download fails, the script has touched no file. *)
Theorem scratch_files_after_a_pass
    (bucket output_prefix : string) (sampling_rate : Z) (vk : string) (w w' : World) :
  (for_body bucket output_prefix sampling_rate vk w = Ret tt w' →
   already_completed ("/tmp/" +:+ basename vk) w = Ret false w →
   "/tmp/" +:+ basename vk ≠ cache_path →
   files w' !! ("/tmp/" +:+ basename vk) = None ∧
   ∃ obj, s3_objects w !! vk = Some obj ∧
     ∀ k, (k < length (sampled sampling_rate 0 (stream_of obj)))%nat →
          files w' !! frame_path_of (basename vk) k = None) ∧
  (for_body bucket output_prefix sampling_rate vk w = Raise S3UploadFailedError w' →
   is_Some (s3_objects w !! vk) ∧
   files w' !! ("/tmp/" +:+ basename vk) = s3_objects w !! vk ∧
   ∃ k frame, files w' !! frame_path_of (basename vk) k = Some (Image frame)) ∧
  (for_body bucket output_prefix sampling_rate vk w = Raise ClientError w' →
   files w' = files w).
Proof.
  split; [|split].
  - intros Hrun Hc Hne.
    apply for_body_ret_inv in Hrun as [[Hc' _]|(_ & _ & obj & Hobj & ->)]; [congruence|].
    split; [by apply completed_world_files_video|].
    exists obj. split; [done|]. intros k Hk. by apply completed_world_files_frame.
  - intros Hrun.
    pose proof (for_body_pass bucket output_prefix sampling_rate vk w) as Hp.
    rewrite Hrun in Hp.
    inversion Hp as [e' Hc| |Hc Hd|obj e' w2 Hc Hf Hobj Hloop| |obj Hc Hf Hobj Hdir]; subst.
    + by apply already_completed_raise in Hc as [_ ?].
    + loop_facts Hloop. rewrite Hobj. split; [by eexists|]. split.
      * rewrite Hother by apply download_path_ne_frame_path.
        cbn [files log with_files]. apply lookup_insert_eq.
      * apply while_loop_raise in Hloop as [(? & _)|(_ & Hfr)]; done.
  - intros Hrun.
    pose proof (for_body_pass bucket output_prefix sampling_rate vk w) as Hp.
    rewrite Hrun in Hp.
    inversion Hp as [e' Hc| |Hc Hd|obj e' w2 Hc Hf Hobj Hloop| |obj Hc Hf Hobj Hdir]; subst.
    + by apply already_completed_raise in Hc as [_ ?].
    + done.
    + apply while_loop_raise in Hloop as [(? & _)|(? & _)]; done.
Qed.

Lemma scratch_files_after_a_pass_witness :
  let pass1 := for_body "b" "frames" 5 "input/a.mp4" in
  let listed (w : World) := log (ListObjects "b" "input") w in
  let done1 := world_of (pass1 (listed one_video)) in
  let died := world_of (pass1 (listed first_upload_fails)) in
  let offline := fresh_world {[ "input/a.mp4" := Video (intact 20) ]} (only_at 0) in
  (pass1 (listed one_video) = Ret tt done1 ∧
   already_completed ("/tmp/" +:+ basename "input/a.mp4") (listed one_video)
     = Ret false (listed one_video) ∧
   "/tmp/" +:+ basename "input/a.mp4" ≠ cache_path ∧
   files done1 !! ("/tmp/" +:+ basename "input/a.mp4") = None) ∧
  (pass1 (listed first_upload_fails) = Raise S3UploadFailedError died ∧
   files died !! ("/tmp/" +:+ basename "input/a.mp4")
   = s3_objects (listed first_upload_fails) !! "input/a.mp4") ∧
  (pass1 offline = Raise ClientError (world_of (pass1 offline)) ∧
   files (world_of (pass1 offline)) = files offline).
Proof.
  intros pass1 listed done1 died offline.
  assert (pass1 (listed one_video) = Ret tt done1) as Hdone by (vm_compute; reflexivity).
  assert (pass1 (listed first_upload_fails) = Raise S3UploadFailedError died) as Hdied
    by (vm_compute; reflexivity).
  assert (pass1 offline = Raise ClientError (world_of (pass1 offline))) as Hoff
    by (vm_compute; reflexivity).
  assert ("/tmp/" +:+ basename "input/a.mp4" ≠ cache_path) as Hne by discriminate.
  split; [|split].
  - split; [exact Hdone|]. split; [reflexivity|]. split; [exact Hne|].
    exact (proj1 (proj1 (scratch_files_after_a_pass "b" "frames" 5 "input/a.mp4"
                           (listed one_video) done1) Hdone eq_refl Hne)).
  - split; [exact Hdied|].
    exact (proj1 (proj2 (proj1 (proj2 (scratch_files_after_a_pass "b" "frames" 5
                                         "input/a.mp4" (listed first_upload_fails) died))
                           Hdied))).
  - split; [exact Hoff|].
    exact (proj2 (proj2 (scratch_files_after_a_pass "b" "frames" 5 "input/a.mp4"
                           offline (world_of (pass1 offline)))) Hoff).
Defined.

(** ** The sampling rate on the command line *)













(** ** Which frames are uploaded, and under which keys *)

Lemma uploaded_keys_app (evs1 evs2 : list Event) :
  uploaded_keys (evs1 ++ evs2) = uploaded_keys evs1 ++ uploaded_keys evs2.
Proof. apply omap_app. Qed.

Lemma uploaded_keys_uploads (bucket output_prefix video_name : string) (ks : list nat) :
  uploaded_keys (upload_event bucket output_prefix video_name <$> ks)
  = upload_key_of output_prefix video_name <$> ks.
Proof. induction ks as [|k ks IH]; [done|]. cbn. by f_equal. Qed.

(** The keys uploaded by a pass that reaches its end. *)
Lemma uploaded_keys_completed
    (bucket output_prefix : string) (sampling_rate : Z) (vk : string) (obj : File) (w : World) :
  uploaded_keys (drop (length (trace w))
                   (trace (completed_world bucket output_prefix sampling_rate vk obj w)))
  = upload_key_of output_prefix (basename vk) <$>
      seq 0 (length (sampled sampling_rate 0 (stream_of obj))).
Proof.
  rewrite completed_world_trace, drop_app_length.
  change (?e :: ?l ++ ?m) with ([e] ++ l ++ m).
  rewrite !uploaded_keys_app, uploaded_keys_uploads. cbn. by rewrite app_nil_r.
Qed.

Lemma upload_keys_NoDup (output_prefix video_name : string) (n : nat) :
  NoDup (upload_key_of output_prefix video_name <$> seq 0 n).
Proof.
  apply NoDup_fmap_2; [apply upload_key_of_inj | apply NoDup_seq].
Qed.



(** The scenario of the specification: 20 frames at rate 5 give the four
    objects [frames/a.mp4_frame_0.jpg] to [frames/a.mp4_frame_3.jpg],
    holding the frames of ordinals 0, 5, 10 and 15. *)
Example scenario_uploads :
  let w' := world_of (main "b" "input" "frames" 5 one_video) in
  (fun k => s3_objects w' !! k) <$>
    ["frames/a.mp4_frame_0.jpg"; "frames/a.mp4_frame_1.jpg";
     "frames/a.mp4_frame_2.jpg"; "frames/a.mp4_frame_3.jpg"; "frames/a.mp4_frame_4.jpg"]
  = [Some (Image "frame0"); Some (Image "frame5"); Some (Image "frame10");
     Some (Image "frame15"); None].
Proof. vm_compute. reflexivity. Qed.

(** C8.  The keys uploaded by a pass that completes its video are
    [{output_prefix}/{basename}_frame_{i}.jpg] for [i = 0, ..., k - 1], in
    this order and without repetition, where [k] is the number of frames
    the pass emitted and the basename is [os.path.basename] of the key.
    After the pass the bucket holds, under the [i]-th of these keys, the
    [i]-th emitted frame, and apart from these keys it holds no key that
    it did not hold before. *)
Theorem uploaded_keys_are_contiguous
    (bucket output_prefix : string) (sampling_rate : Z) (vk : string) (w w' : World) :
  already_completed ("/tmp/" +:+ basename vk) w = Ret false w →
  for_body bucket output_prefix sampling_rate vk w = Ret tt w' →
  ∃ obj, s3_objects w !! vk = Some obj ∧
    let k := length (sampled sampling_rate 0 (stream_of obj)) in
    let keys := uploaded_keys (new_events (for_body bucket output_prefix sampling_rate vk) w) in
    keys = (fun i : nat =>
              output_prefix +:+ "/" +:+ basename vk +:+ "_frame_" +:+ pretty i +:+ ".jpg")
           <$> seq 0 k ∧
    NoDup keys ∧
    (∀ i key, keys !! i = Some key →
       ∃ frame, sampled sampling_rate 0 (stream_of obj) !! i = Some frame ∧
                s3_objects w' !! key = Some (Image frame)) ∧
    ∀ key, is_Some (s3_objects w' !! key) →
           key ∈ keys ∨ is_Some (s3_objects w !! key).
Proof.
  intros Hc Hrun.
  pose proof Hrun as Hinv.
  apply for_body_ret_inv in Hinv as [[Hc' _]|(_ & _ & obj & Hobj & ->)]; [congruence|].
  exists obj. split; [done|]. intros k keys.
  assert (keys = upload_key_of output_prefix (basename vk) <$> seq 0 k) as Hkeys.
  { unfold keys, new_events. rewrite Hrun. cbn [world_of].
    apply uploaded_keys_completed. }
  split; [exact Hkeys|]. split; [|split].
  - rewrite Hkeys. apply upload_keys_NoDup.
  - intros i key Hi. rewrite Hkeys, list_lookup_fmap in Hi.
    destruct (seq 0 k !! i) as [j|] eqn:Hj; [|done].
    apply lookup_seq in Hj as [-> Hlt]. cbn in Hi. injection Hi as <-.
    destruct (lookup_lt_is_Some_2 (sampled sampling_rate 0 (stream_of obj)) i Hlt)
      as [frame Hframe].
    exists frame. split; [exact Hframe|].
    by apply completed_world_s3_objects.
  - intros key Hkey. rewrite Hkeys.
    destruct (decide (key ∈ upload_key_of output_prefix (basename vk) <$> seq 0 k))
      as [Hin|Hout]; [by left|]. right.
    unfold completed_world, append_world in Hkey. cbn [s3_objects log with_files] in Hkey.
    rewrite emit_all_s3_other in Hkey; [done|].
    intros j Hj ->. apply Hout. apply list_elem_of_fmap. exists j. split; [done|].
    apply elem_of_seq. fold k in Hj. lia.
Qed.

Lemma uploaded_keys_are_contiguous_witness :
  let pass1 := for_body "b" "frames" 5 "input/a.mp4" in
  let w' := world_of (pass1 one_video) in
  already_completed ("/tmp/" +:+ basename "input/a.mp4") one_video = Ret false one_video ∧
  pass1 one_video = Ret tt w' ∧
  uploaded_keys (new_events pass1 one_video)
  = ["frames/a.mp4_frame_0.jpg"; "frames/a.mp4_frame_1.jpg";
     "frames/a.mp4_frame_2.jpg"; "frames/a.mp4_frame_3.jpg"] ∧
  NoDup (uploaded_keys (new_events pass1 one_video)) ∧
  s3_objects w' !! "frames/a.mp4_frame_2.jpg" = Some (Image "frame10").
Proof.
  intros pass1 w'.
  assert (pass1 one_video = Ret tt w') as Hrun by (vm_compute; reflexivity).
  split; [reflexivity|]. split; [exact Hrun|].
  destruct (uploaded_keys_are_contiguous "b" "frames" 5 "input/a.mp4" one_video _
              eq_refl Hrun) as (obj & Hobj & Hkeys & Hnd & Hheld & _).
  assert (Some obj = Some (Video (intact 20))) as Heq by (rewrite <- Hobj; reflexivity).
  injection Heq as ->.
  assert (uploaded_keys (new_events pass1 one_video)
          = ["frames/a.mp4_frame_0.jpg"; "frames/a.mp4_frame_1.jpg";
             "frames/a.mp4_frame_2.jpg"; "frames/a.mp4_frame_3.jpg"]) as Hlist.
  { etrans; [exact Hkeys|]. vm_compute. reflexivity. }
  split; [exact Hlist|]. split; [exact Hnd|].
  destruct (Hheld 2%nat "frames/a.mp4_frame_2.jpg") as (frame & Hframe & Hobj2).
  { fold pass1. rewrite Hlist. reflexivity. }
  assert (Some frame = Some "frame10") as Hf by (rewrite <- Hframe; vm_compute; reflexivity).
  injection Hf as ->. exact Hobj2.
Defined.

(** ** The invariant of the frame loop *)

(** An iteration is a step of [while_loop]. *)
Lemma while_loop_iteration (bucket output_prefix : string) (sampling_rate : Z)
    (video_name : string) (s s' : LoopState) :
  iteration bucket output_prefix sampling_rate video_name s s' →
  while_loop bucket output_prefix sampling_rate video_name
    (st_stream s) (st_i s) (st_frame_index s) (st_world s)
  = while_loop bucket output_prefix sampling_rate video_name
      (st_stream s') (st_i s') (st_frame_index s') (st_world s').
Proof.
  intros [frame stream i k w i' k' w' Hbody]. cbn [st_stream st_i st_frame_index st_world].
  cbn [while_loop]. unfold bind. by rewrite Hbody.
Qed.

(** C9.  In every state the [while] loop reaches at the start of an
    iteration, [frame_index] is the number of decoded ordinals [j < i] with
    [j % sampling_rate == 0], [i] is the number of frames read so far, and
    the uploads made so far are those of the frame indices
    [0, ..., frame_index - 1] in this order: the index given to the next
    emitted frame is the number of frames emitted before it. *)
Theorem frame_index_counts_emitted_frames
    (bucket output_prefix : string) (sampling_rate : Z) (video_name : string)
    (stream : list Frame) (w : World) (s : LoopState) :
  rtc (iteration bucket output_prefix sampling_rate video_name)
    {| st_stream := stream; st_i := 0; st_frame_index := 0; st_world := w |} s →
  st_frame_index s = count_sampled sampling_rate (st_i s) ∧
  st_stream s = drop (st_i s) stream ∧
  trace (st_world s)
  = trace w ++ (upload_event bucket output_prefix video_name <$>
                  seq 0 (st_frame_index s)) ∧
  while_loop bucket output_prefix sampling_rate video_name stream 0 0 w
  = while_loop bucket output_prefix sampling_rate video_name
      (st_stream s) (st_i s) (st_frame_index s) (st_world s).
Proof.
  revert s. apply rtc_ind_r.
  - cbn. by rewrite app_nil_r.
  - intros s s' _ Hstep (Hcount & Hstream & Htrace & Hloop).
    rewrite Hloop, (while_loop_iteration _ _ _ _ _ _ Hstep). clear Hloop.
    destruct Hstep as [frame rest i k w1 i' k' w' Hbody].
    cbn [st_stream st_i st_frame_index st_world] in *.
    rewrite while_body_eq in Hbody.
    destruct (sampling_rate =? 0); [done|].
    assert (rest = drop (S i) stream) as Hrest.
    { rewrite <- (Nat.add_1_r i), <- drop_drop, <- Hstream. done. }
    destruct (Z.of_nat i mod sampling_rate =? 0) eqn:Hmod.
    + destruct (s3_fails w1 (length (trace w1))); [done|].
      injection Hbody as <- <- <-.
      rewrite count_sampled_S, Hmod, emit_trace, Htrace, seq_S, fmap_app, <- app_assoc.
      by rewrite <- Hcount.
    + injection Hbody as <- <- <-.
      by rewrite count_sampled_S, Hmod.
Qed.

Lemma frame_index_counts_emitted_frames_witness :
  let w := fresh_world ∅ never in
  let s1 := {| st_stream := ["f1"; "f2"]; st_i := 1; st_frame_index := 1;
               st_world := emit "b" "frames" "v.mp4" "f0" 0 w |} in
  let s2 := {| st_stream := ["f2"]; st_i := 2; st_frame_index := 1;
               st_world := emit "b" "frames" "v.mp4" "f0" 0 w |} in
  rtc (iteration "b" "frames" 2 "v.mp4")
    {| st_stream := ["f0"; "f1"; "f2"]; st_i := 0; st_frame_index := 0; st_world := w |} s2 ∧
  st_frame_index s2 = count_sampled 2 (st_i s2) ∧
  trace (st_world s2)
  = trace w ++ (upload_event "b" "frames" "v.mp4" <$> seq 0 (st_frame_index s2)).
Proof.
  intros w s1 s2.
  assert (rtc (iteration "b" "frames" 2 "v.mp4")
            {| st_stream := ["f0"; "f1"; "f2"]; st_i := 0; st_frame_index := 0;
               st_world := w |} s2) as Hreach.
  { apply (rtc_l _ _ s1); [by constructor|].
    apply (rtc_l _ _ s2); [by constructor|]. apply rtc_refl. }
  split; [exact Hreach|].
  destruct (frame_index_counts_emitted_frames "b" "frames" 2 "v.mp4"
              ["f0"; "f1"; "f2"] w s2 Hreach) as (Hcount & _ & Htrace & _).
  split; [exact Hcount | exact Htrace].
Defined.

(** * Further properties of the script *)

(** ** [os.path.basename] *)

(** A slash-free tail stays in the basename. *)
Lemma basename_append (s t : string) :
  mentions "/" t = false → basename (s +:+ t) = basename s +:+ t.
Proof.
  intros Ht. induction s as [|a s IH].
  - by rewrite append_nil_l, basename_no_slash.
  - rewrite append_cons, !basename_cons, mentions_append, Ht, orb_false_r.
    destruct (mentions "/" s); [done|]. by destruct (Ascii.eqb a "/").
Qed.

Lemma basename_trailing_slash (dir : string) : basename (dir +:+ "/") = "".
Proof.
  induction dir as [|a dir IH]; [done|].
  rewrite append_cons, basename_cons, mentions_append.
  cbn [mentions]. by rewrite Ascii.eqb_refl, orb_true_r.
Qed.

(** X1.  The basename of a key never contains a slash, and the key is its
    directory part, empty or ending in a slash, followed by the basename:
    the download path [/tmp/{basename}] names a file directly in [/tmp]. *)
Theorem basename_is_the_last_component (p : string) :
  mentions "/" (basename p) = false ∧
  ∃ dir, p = dir +:+ basename p ∧ (dir = "" ∨ last_char dir = Some "/"%char).
Proof.
  induction p as [|a p (IHm & dir & IHp & IHdir)].
  { split; [done|]. exists "". by split; [|left]. }
  rewrite basename_cons. destruct (mentions "/" p) eqn:Hm.
  - split; [done|]. exists (String a dir). split.
    + rewrite append_cons. by rewrite <- IHp.
    + right. destruct IHdir as [->|Hl].
      * rewrite append_nil_l in IHp. rewrite IHp, IHm in Hm. done.
      * cbn [last_char]. by destruct dir.
  - destruct (Ascii.eqb_spec a "/") as [->|Ha].
    + split; [done|]. exists "/". by split; [|right].
    + split.
      * cbn [mentions]. rewrite Hm. by destruct (Ascii.eqb_spec a "/").
      * exists "". by split; [|left].
Qed.

(** X2.  Joining a directory and a slash-free name with a slash and taking
    the basename gives the name back. *)
Theorem basename_of_joined_path (dir name : string) :
  mentions "/" name = false →
  basename (dir +:+ "/" +:+ name) = name.
Proof.
  intros Hname. rewrite <- append_assoc, basename_append by done.
  by rewrite basename_trailing_slash.
Qed.

Lemma basename_of_joined_path_witness :
  mentions "/" "a.mp4" = false ∧ basename ("input/2024" +:+ "/" +:+ "a.mp4") = "a.mp4".
Proof.
  split; [reflexivity|]. apply (basename_of_joined_path "input/2024" "a.mp4"). reflexivity.
Defined.

(** ** The names of the frames *)

Lemma pretty_N_go_mentions (c : ascii) (x : N) (s : string) :
  (∀ d, pretty_N_char d ≠ c) → mentions c s = false →
  mentions c (pretty_N_go x s) = false.
Proof.
  intros Hc. revert s. induction (N.lt_wf_0 x) as [x _ IH]; intros s Hs.
  assert (x = 0 ∨ 0 < x)%N as [->|Hx] by lia.
  - by rewrite pretty_N_go_0.
  - rewrite pretty_N_go_step by done. apply IH.
    + by apply N.div_lt.
    + cbn [mentions]. rewrite Hs, orb_false_r.
      destruct (Ascii.eqb_spec (pretty_N_char (x `mod` 10)) c) as [Heq|]; [|done].
      by apply Hc in Heq.
Qed.

(** The decimal form of a frame index holds digits only. *)
Lemma pretty_nat_mentions (c : ascii) (n : nat) :
  (∀ d, pretty_N_char d ≠ c) → mentions c (pretty n) = false.
Proof.
  intros Hc. unfold pretty, pretty_nat, pretty, pretty_N.
  destruct (decide (N.of_nat n = 0%N)).
  - change (mentions c "0") with (Ascii.eqb "0" c || false).
    rewrite orb_false_r.
    destruct (Ascii.eqb_spec "0" c) as [Heq|]; [|done]. by apply (Hc 0%N) in Heq.
  - by apply pretty_N_go_mentions.
Qed.

Lemma slash_is_no_digit (d : N) : pretty_N_char d ≠ "/"%char.
Proof. unfold pretty_N_char. by repeat case_match. Qed.

Lemma underscore_is_no_digit (d : N) : pretty_N_char d ≠ "_"%char.
Proof. unfold pretty_N_char. by repeat case_match. Qed.

Lemma frame_name_no_slash (video_name : string) (i : nat) :
  mentions "/" video_name = false → mentions "/" (frame_name_of video_name i) = false.
Proof.
  intros H. unfold frame_name_of.
  rewrite !mentions_append, H, (pretty_nat_mentions _ _ slash_is_no_digit). done.
Qed.

(** Two texts cut at their last [c] are equal part by part. *)
Lemma append_sep_inj (c : ascii) (a b t u : string) :
  mentions c t = false → mentions c u = false →
  a +:+ String c t = b +:+ String c u → a = b ∧ t = u.
Proof.
  intros Ht Hu. revert b. induction a as [|x a IH]; intros [|y b] H.
  - rewrite !append_nil_l in H. by injection H.
  - rewrite append_nil_l, append_cons in H. injection H as -> ->.
    rewrite mentions_append in Ht. cbn [mentions] in Ht.
    rewrite Ascii.eqb_refl, orb_true_r in Ht. done.
  - rewrite append_nil_l, append_cons in H. injection H as -> <-.
    rewrite mentions_append in Hu. cbn [mentions] in Hu.
    rewrite Ascii.eqb_refl, orb_true_r in Hu. done.
  - rewrite !append_cons in H. injection H as -> H.
    apply IH in H as [-> ->]. done.
Qed.

Lemma frame_name_of_inj2 (name1 name2 : string) (i j : nat) :
  frame_name_of name1 i = frame_name_of name2 j → name1 = name2 ∧ i = j.
Proof.
  unfold frame_name_of. intros H.
  rewrite <- !append_assoc in H. apply append_inv_tail in H.
  change (?n +:+ "_frame_") with (n +:+ "_frame" +:+ String "_" "") in H.
  rewrite !append_assoc in H.
  rewrite <- (append_assoc name1), <- (append_assoc name2) in H.
  change (String "_" "" +:+ ?t) with (String "_" t) in H.
  apply (append_sep_inj "_") in H as [Hn Hp];
    [|by apply pretty_nat_mentions, underscore_is_no_digit..].
  apply append_inv_tail in Hn. by apply (inj pretty) in Hp.
Qed.

(** X3.  Two videos share an output object only if they share their
    basename: with one output prefix, the object key determines both the
    video's basename and the frame index. *)
Theorem upload_key_determines_video_and_frame
    (output_prefix name1 name2 : string) (i j : nat) :
  upload_key_of output_prefix name1 i = upload_key_of output_prefix name2 j ↔
  name1 = name2 ∧ i = j.
Proof.
  split; [|by intros [-> ->]].
  unfold upload_key_of. intros H.
  apply String.app_inj in H. apply String.app_inj in H.
  by apply frame_name_of_inj2.
Qed.

Lemma upload_key_determines_video_and_frame_witness :
  upload_key_of "frames" "a.mp4" 12 = "frames/a.mp4_frame_12.jpg" ∧
  (upload_key_of "frames" "a.mp4" 12 = upload_key_of "frames" "a.mp4" 12 →
   "a.mp4" = "a.mp4" ∧ 12%nat = 12%nat) ∧
  upload_key_of "frames" "a.mp4_frame_1.jpg" 2 ≠ upload_key_of "frames" "a.mp4" 1.
Proof.
  split; [reflexivity|]. split.
  - exact (proj1 (upload_key_determines_video_and_frame "frames" "a.mp4" "a.mp4" 12 12)).
  - intros Heq.
    destruct (proj1 (upload_key_determines_video_and_frame "frames"
                       "a.mp4_frame_1.jpg" "a.mp4" 2 1) Heq) as [Hname _].
    discriminate Hname.
Defined.

(** The basename of an upload key is the frame name. *)
Lemma basename_upload_key (output_prefix vk : string) (i : nat) :
  basename (upload_key_of output_prefix (basename vk) i) = frame_name_of (basename vk) i.
Proof.
  unfold upload_key_of.
  rewrite <- append_assoc, basename_append, basename_trailing_slash; [done|].
  apply frame_name_no_slash, basename_mentions_slash.
Qed.

(** ** What a run leaves alone *)

Section Untouched.
Context (bucket output_prefix : string) (sampling_rate : Z).

Local Abbreviation loop := (while_loop bucket output_prefix sampling_rate).
Local Abbreviation body := (for_body bucket output_prefix sampling_rate).
Local Abbreviation run := (for_loop bucket output_prefix sampling_rate).

(** However the frame loop ends, it has changed no object but under the
    upload keys of its video, and has removed none. *)
Lemma while_loop_s3_other video_name stream i k w key :
  (∀ j, key ≠ upload_key_of output_prefix video_name j) →
  s3_objects (world_of (loop video_name stream i k w)) !! key = s3_objects w !! key.
Proof.
  intros Hkey. revert i k w; induction stream as [|f s IH]; intros i k w; [done|].
  cbn [while_loop]. unfold bind. rewrite while_body_eq.
  destruct (sampling_rate =? 0); [done|].
  destruct (Z.of_nat i mod sampling_rate =? 0); [|apply IH].
  destruct (s3_fails w (length (trace w))); [done|].
  cbn [fst snd]. rewrite IH, emit_s3_objects. by rewrite lookup_insert_ne.
Qed.

Lemma while_loop_s3_some video_name stream i k w key :
  is_Some (s3_objects w !! key) →
  is_Some (s3_objects (world_of (loop video_name stream i k w)) !! key).
Proof.
  revert i k w; induction stream as [|f s IH]; intros i k w Hkey; [done|].
  cbn [while_loop]. unfold bind. rewrite while_body_eq.
  destruct (sampling_rate =? 0); [done|].
  destruct (Z.of_nat i mod sampling_rate =? 0); [|by apply IH].
  destruct (s3_fails w (length (trace w))); [done|].
  cbn [fst snd]. apply IH. rewrite emit_s3_objects.
  rewrite lookup_insert. by case_decide.
Qed.

Lemma while_loop_s3_fails video_name stream i k w :
  s3_fails (world_of (loop video_name stream i k w)) = s3_fails w.
Proof.
  revert i k w; induction stream as [|f s IH]; intros i k w; [done|].
  cbn [while_loop]. unfold bind. rewrite while_body_eq.
  destruct (sampling_rate =? 0); [done|].
  destruct (Z.of_nat i mod sampling_rate =? 0); [|apply IH].
  destruct (s3_fails w (length (trace w))); [done|].
  cbn [fst snd]. by rewrite IH.
Qed.

(** The same for one pass of the [for] loop. *)
Lemma for_body_s3_other vk w key :
  (∀ j, key ≠ upload_key_of output_prefix (basename vk) j) →
  s3_objects (world_of (body vk w)) !! key = s3_objects w !! key.
Proof.
  intros Hkey.
  destruct (for_body_pass bucket output_prefix sampling_rate vk w)
    as [e Hc|Hc|Hc Hd|obj e w2 Hc Hf Hobj Hloop|obj w2 Hc Hf Hobj Hloop|obj Hc Hf Hobj Hdir];
    cbn [world_of]; try done.
  all: match type of Hloop with
       | while_loop _ _ _ ?n ?s ?i ?k ?w1 = _ =>
           pose proof (while_loop_s3_other n s i k w1 key Hkey) as H
       end; by rewrite Hloop in H.
Qed.

Lemma for_body_s3_some vk w key :
  is_Some (s3_objects w !! key) → is_Some (s3_objects (world_of (body vk w)) !! key).
Proof.
  intros Hkey.
  destruct (for_body_pass bucket output_prefix sampling_rate vk w)
    as [e Hc|Hc|Hc Hd|obj e w2 Hc Hf Hobj Hloop|obj w2 Hc Hf Hobj Hloop|obj Hc Hf Hobj Hdir];
    cbn [world_of]; try done.
  all: match type of Hloop with
       | while_loop _ _ _ ?n ?s ?i ?k ?w1 = _ =>
           pose proof (while_loop_s3_some n s i k w1 key Hkey) as H
       end; by rewrite Hloop in H.
Qed.

Lemma for_body_s3_fails vk w : s3_fails (world_of (body vk w)) = s3_fails w.
Proof.
  destruct (for_body_pass bucket output_prefix sampling_rate vk w)
    as [e Hc|Hc|Hc Hd|obj e w2 Hc Hf Hobj Hloop|obj w2 Hc Hf Hobj Hloop|obj Hc Hf Hobj Hdir];
    cbn [world_of]; try done.
  all: match type of Hloop with
       | while_loop _ _ _ ?n ?s ?i ?k ?w1 = _ =>
           pose proof (while_loop_s3_fails n s i k w1) as H
       end; by rewrite Hloop in H.
Qed.

(** A pass changes no local file but the download, its frame images and
    the cache file. *)
Lemma for_body_files_other vk w p :
  p ≠ "/tmp/" +:+ basename vk → p ≠ cache_path →
  (∀ j, p ≠ frame_path_of (basename vk) j) →
  files (world_of (body vk w)) !! p = files w !! p.
Proof.
  intros Hdp Hcache Hframe.
  destruct (for_body_pass bucket output_prefix sampling_rate vk w)
    as [e Hc|Hc|Hc Hd|obj e w2 Hc Hf Hobj Hloop|obj w2 Hc Hf Hobj Hloop|obj Hc Hf Hobj Hdir];
    cbn [world_of]; try done.
  - loop_facts Hloop. rewrite Hother by done. cbn. by rewrite lookup_insert_ne.
  - loop_facts Hloop. unfold append_world. cbn [files log with_files].
    rewrite lookup_insert_ne, lookup_delete_ne, Hother by done.
    cbn. by rewrite lookup_insert_ne.
Qed.

(** The same for the whole [for] loop. *)
Lemma for_loop_s3_some video_keys w key :
  is_Some (s3_objects w !! key) →
  is_Some (s3_objects (world_of (run video_keys w)) !! key).
Proof.
  revert w; induction video_keys as [|vk rest IH]; intros w Hkey; [done|].
  rewrite for_loop_cons.
  pose proof (for_body_s3_some vk w key Hkey) as H.
  destruct (body vk w) as [[] w1|e w1]; cbn [world_of] in *; [by apply IH | done].
Qed.

Lemma for_loop_s3_other video_keys w key :
  (∀ vk j, vk ∈ video_keys → key ≠ upload_key_of output_prefix (basename vk) j) →
  s3_objects (world_of (run video_keys w)) !! key = s3_objects w !! key.
Proof.
  revert w; induction video_keys as [|vk rest IH]; intros w Hkey; [done|].
  rewrite for_loop_cons.
  pose proof (for_body_s3_other vk w key) as H.
  destruct (body vk w) as [[] w1|e w1]; cbn [world_of] in *.
  - rewrite IH, H; [done| |].
    + intros j. apply Hkey, elem_of_cons. by left.
    + intros vk' j Hin. apply Hkey, elem_of_cons. by right.
  - apply H. intros j. apply Hkey, elem_of_cons. by left.
Qed.

Lemma for_loop_files_other video_keys w p :
  p ≠ cache_path →
  (∀ vk, vk ∈ video_keys → p ≠ "/tmp/" +:+ basename vk) →
  (∀ vk j, vk ∈ video_keys → p ≠ frame_path_of (basename vk) j) →
  files (world_of (run video_keys w)) !! p = files w !! p.
Proof.
  intros Hcache. revert w; induction video_keys as [|vk rest IH]; intros w Hdp Hfr; [done|].
  rewrite for_loop_cons.
  pose proof (for_body_files_other vk w p) as H.
  destruct (body vk w) as [[] w1|e w1]; cbn [world_of] in *.
  - rewrite IH, H; [done|..].
    + apply Hdp, elem_of_cons. by left.
    + done.
    + intros j. apply Hfr, elem_of_cons. by left.
    + intros vk' Hin. apply Hdp, elem_of_cons. by right.
    + intros vk' j Hin. apply Hfr, elem_of_cons. by right.
  - apply H; [|done|].
    + apply Hdp, elem_of_cons. by left.
    + intros j. apply Hfr, elem_of_cons. by left.
Qed.
End Untouched.

(** ** The listing *)

Lemma get_video_keys_eq (bucket prefix : string) (w : World) :
  s3_fails w (length (trace w)) = false →
  get_video_keys bucket prefix w =
  Ret (take 1000 (filter (fun k => String.prefix prefix k)
                    (merge_sort String.le (map_to_list (s3_objects w)).*1)))
      (log (ListObjects bucket prefix) w).
Proof.
  intros Hf. unfold get_video_keys, bind, S3.list_objects. rewrite Hf.
  by destruct (take 1000 _).
Qed.

Lemma get_video_keys_fails (bucket prefix : string) (w : World) :
  s3_fails w (length (trace w)) = true →
  get_video_keys bucket prefix w = Raise ClientError (log (ListObjects bucket prefix) w).
Proof. intros Hf. unfold get_video_keys, bind, S3.list_objects. by rewrite Hf. Qed.

Lemma sorted_matching_keys (prefix : string) (w : World) :
  filter (fun k => String.prefix prefix k)
    (merge_sort String.le (map_to_list (s3_objects w)).*1)
  ≡ₚ matching_keys prefix w.
Proof. unfold matching_keys. by rewrite merge_sort_Permutation. Qed.

Lemma elem_of_matching_keys (prefix : string) (w : World) (k : string) :
  k ∈ matching_keys prefix w ↔ is_Some (s3_objects w !! k) ∧ String.prefix prefix k = true.
Proof.
  unfold matching_keys. rewrite list_elem_of_filter, list_elem_of_fmap.
  rewrite Is_true_true. split.
  - intros (Hp & [k' obj] & -> & Hin). apply elem_of_map_to_list in Hin.
    split; [by eexists | done].
  - intros ([obj Hobj] & Hp). split; [done|]. exists (k, obj). split; [done|].
    by apply elem_of_map_to_list.
Qed.

Lemma matching_keys_NoDup (prefix : string) (w : World) : NoDup (matching_keys prefix w).
Proof. apply NoDup_filter, NoDup_fst_map_to_list. Qed.

Lemma get_video_keys_lists_matching_keys_aux (bucket prefix : string) (w : World) :
  s3_fails w (length (trace w)) = false →
  ∃ keys,
    get_video_keys bucket prefix w = Ret keys (log (ListObjects bucket prefix) w) ∧
    ∀ k, k ∈ keys → is_Some (s3_objects w !! k) ∧ String.prefix prefix k = true.
Proof.
  intros Hf. eexists. split; [by apply get_video_keys_eq|].
  intros k Hk. apply elem_of_matching_keys. rewrite <- sorted_matching_keys.
  eapply elem_of_sublist; [done | apply sublist_take].
Qed.

(** X4.  When the listing call succeeds, [get_video_keys] returns keys of
    the bucket that start with the prefix, each one once and at most 1000
    of them, and changes nothing but the trace; when at most 1000 keys
    match, it returns them all. *)
Theorem get_video_keys_lists_matching_keys (bucket prefix : string) (w : World) :
  s3_fails w (length (trace w)) = false →
  ∃ keys,
    get_video_keys bucket prefix w = Ret keys (log (ListObjects bucket prefix) w) ∧
    NoDup keys ∧
    (length keys ≤ 1000)%nat ∧
    (∀ k, k ∈ keys → is_Some (s3_objects w !! k) ∧ String.prefix prefix k = true) ∧
    ((length (matching_keys prefix w) ≤ 1000)%nat →
     ∀ k, is_Some (s3_objects w !! k) → String.prefix prefix k = true → k ∈ keys).
Proof.
  intros Hf. eexists. split; [by apply get_video_keys_eq|].
  pose proof (sorted_matching_keys prefix w) as Hperm.
  set (sorted := filter _ (merge_sort _ _)) in *.
  split; [|split; [|split]].
  - eapply sublist_NoDup; [|apply sublist_take].
    rewrite Hperm. apply matching_keys_NoDup.
  - rewrite length_take. lia.
  - intros k Hk. apply elem_of_matching_keys. rewrite <- Hperm.
    eapply elem_of_sublist; [done | apply sublist_take].
  - intros Hfew k Hobj Hp. rewrite take_ge.
    + rewrite Hperm. by apply elem_of_matching_keys.
    + by rewrite Hperm.
Qed.

Lemma get_video_keys_lists_matching_keys_witness :
  s3_fails three_videos (length (trace three_videos)) = false ∧
  ∃ keys,
    get_video_keys "b" "input/b" three_videos
    = Ret keys (log (ListObjects "b" "input/b") three_videos) ∧
    NoDup keys ∧
    (length (matching_keys "input/b" three_videos) ≤ 1000)%nat ∧
    "input/b.mp4" ∈ keys.
Proof.
  split; [reflexivity|].
  destruct (get_video_keys_lists_matching_keys "b" "input/b" three_videos eq_refl)
    as (keys & Hrun & Hnd & _ & _ & Hall).
  assert (length (matching_keys "input/b" three_videos) ≤ 1000)%nat as Hfew
    by (vm_compute; lia).
  exists keys. split; [exact Hrun|]. split; [exact Hnd|]. split; [exact Hfew|].
  apply (Hall Hfew); [by eexists | reflexivity].
Defined.

(** X5.  A run with nothing to process does nothing but the listing,
    whatever the sampling rate: when the listing call fails, [main] dies of
    [ClientError]; when no key of the bucket starts with the input prefix,
    [main] returns.  Either way only the listing is added to the trace and
    no object or file is touched. *)
Theorem main_with_nothing_to_process
    (bucket input_prefix output_prefix : string) (sampling_rate : Z) (w : World) :
  (s3_fails w (length (trace w)) = true →
   main bucket input_prefix output_prefix sampling_rate w
   = Raise ClientError (log (ListObjects bucket input_prefix) w)) ∧
  (s3_fails w (length (trace w)) = false →
   (∀ k, is_Some (s3_objects w !! k) → String.prefix input_prefix k = false) →
   main bucket input_prefix output_prefix sampling_rate w
   = Ret tt (log (ListObjects bucket input_prefix) w)).
Proof.
  split.
  - intros Hf. unfold main, bind. by rewrite get_video_keys_fails.
  - intros Hf Hnone. unfold main, bind. rewrite get_video_keys_eq by done.
    assert (matching_keys input_prefix w = []) as Hempty.
    { apply elem_of_nil_inv. intros k Hk.
      apply elem_of_matching_keys in Hk as [Hobj Hp].
      apply Hnone in Hobj. congruence. }
    pose proof (sorted_matching_keys input_prefix w) as Hperm.
    rewrite Hempty in Hperm. apply Permutation_nil_r in Hperm. by rewrite Hperm.
Qed.

Lemma main_with_nothing_to_process_witness :
  let offline := fresh_world {[ "input/a.mp4" := Video (intact 20) ]} (only_at 0) in
  (s3_fails offline (length (trace offline)) = true ∧
   main "b" "input" "frames" 5 offline
   = Raise ClientError (log (ListObjects "b" "input") offline)) ∧
  (s3_fails one_video (length (trace one_video)) = false ∧
   (∀ k, is_Some (s3_objects one_video !! k) → String.prefix "other" k = false) ∧
   main "b" "other" "frames" 0 one_video
   = Ret tt (log (ListObjects "b" "other") one_video)).
Proof.
  intros offline.
  assert (∀ k, is_Some (s3_objects one_video !! k) → String.prefix "other" k = false)
    as Hnone.
  { intros k [obj Hobj]. unfold one_video, fresh_world in Hobj. cbn [s3_objects] in Hobj.
    apply lookup_singleton_Some in Hobj as [<- _]. reflexivity. }
  split.
  - split; [reflexivity|].
    exact (proj1 (main_with_nothing_to_process "b" "input" "frames" 5 offline) eq_refl).
  - split; [reflexivity|]. split; [exact Hnone|].
    exact (proj2 (main_with_nothing_to_process "b" "other" "frames" 0 one_video)
             eq_refl Hnone).
Defined.

(** [main] is the listing followed by the [for] loop over keys of the
    bucket that start with the input prefix. *)
Lemma main_unfold (bucket input_prefix output_prefix : string) (sampling_rate : Z)
    (w : World) :
  main bucket input_prefix output_prefix sampling_rate w
  = Raise ClientError (log (ListObjects bucket input_prefix) w) ∨
  ∃ keys,
    (∀ k, k ∈ keys → is_Some (s3_objects w !! k) ∧ String.prefix input_prefix k = true) ∧
    main bucket input_prefix output_prefix sampling_rate w
    = for_loop bucket output_prefix sampling_rate keys
        (log (ListObjects bucket input_prefix) w).
Proof.
  destruct (s3_fails w (length (trace w))) eqn:Hf.
  - left. unfold main, bind. by rewrite get_video_keys_fails.
  - right.
    destruct (get_video_keys_lists_matching_keys_aux bucket input_prefix w Hf)
      as (keys & Hrun & Hin).
    exists keys. split; [done|]. unfold main, bind. by rewrite Hrun.
Qed.

(** X6.  A run removes no object from the bucket, and every object it
    changes or adds sits under an upload key of a listed video, that is
    under [{output_prefix}/{basename}_frame_{j}.jpg] for a key of the
    bucket that starts with the input prefix; this holds however the run
    ends. *)
Theorem run_only_writes_frame_objects
    (bucket input_prefix output_prefix : string) (sampling_rate : Z) (w : World) :
  let w' := world_of (main bucket input_prefix output_prefix sampling_rate w) in
  (∀ k, is_Some (s3_objects w !! k) → is_Some (s3_objects w' !! k)) ∧
  (∀ k, (∀ vk j, is_Some (s3_objects w !! vk) → String.prefix input_prefix vk = true →
                 k ≠ upload_key_of output_prefix (basename vk) j) →
        s3_objects w' !! k = s3_objects w !! k).
Proof.
  intros w'. unfold w'.
  destruct (main_unfold bucket input_prefix output_prefix sampling_rate w)
    as [->|(keys & Hkeys & ->)]; [done|].
  split.
  - intros k Hk.
    by apply (for_loop_s3_some _ _ _ keys (log (ListObjects bucket input_prefix) w)).
  - intros k Hk.
    rewrite for_loop_s3_other; [done|].
    intros vk j Hin. destruct (Hkeys vk Hin). by apply Hk.
Qed.

Lemma run_only_writes_frame_objects_witness :
  let w' := world_of (main "b" "input" "frames" 5 one_video) in
  is_Some (s3_objects one_video !! "input/a.mp4") ∧
  is_Some (s3_objects w' !! "input/a.mp4") ∧
  (∀ vk j, is_Some (s3_objects one_video !! vk) → String.prefix "input" vk = true →
           "input/a.mp4" ≠ upload_key_of "frames" (basename vk) j) ∧
  s3_objects w' !! "input/a.mp4" = s3_objects one_video !! "input/a.mp4".
Proof.
  intros w'.
  assert (is_Some (s3_objects one_video !! "input/a.mp4")) as Hsome by (by eexists).
  assert (∀ vk j, is_Some (s3_objects one_video !! vk) → String.prefix "input" vk = true →
                  "input/a.mp4" ≠ upload_key_of "frames" (basename vk) j) as Hne.
  { intros vk j _ _ Heq. apply (f_equal (String.get 0)) in Heq. discriminate Heq. }
  destruct (run_only_writes_frame_objects "b" "input" "frames" 5 one_video)
    as [Hkeeps Hsame].
  split; [exact Hsome|]. split; [exact (Hkeeps _ Hsome)|]. split; [exact Hne|].
  exact (Hsame _ Hne).
Defined.

(** X7.  A run creates, changes or removes local files directly in [/tmp]
    only: a path that is not [/tmp/] followed by a slash-free name keeps
    its file, or stays absent, however the run ends. *)
Theorem run_touches_only_tmp
    (bucket input_prefix output_prefix : string) (sampling_rate : Z) (w : World)
    (p : string) :
  (∀ name, mentions "/" name = false → p ≠ "/tmp/" +:+ name) →
  files (world_of (main bucket input_prefix output_prefix sampling_rate w)) !! p
  = files w !! p.
Proof.
  intros Hp.
  destruct (main_unfold bucket input_prefix output_prefix sampling_rate w)
    as [->|(keys & Hkeys & ->)]; [done|].
  rewrite for_loop_files_other; [done|..].
  - apply (Hp "extract_frames_from_videos_cache.txt"). reflexivity.
  - intros vk _. apply Hp, basename_mentions_slash.
  - intros vk j _. apply Hp, frame_name_no_slash, basename_mentions_slash.
Qed.

Lemma run_touches_only_tmp_witness :
  let w := {| s3_objects := s3_objects one_video;
              files := {[ "/home/user/a.mp4" := Text "mine"; "/tmp/sub/a.mp4" := Text "also" ]};
              trace := []; s3_fails := never |} in
  let w' := world_of (main "b" "input" "frames" 5 w) in
  (∀ name, mentions "/" name = false → "/tmp/sub/a.mp4" ≠ "/tmp/" +:+ name) ∧
  files w' !! "/tmp/sub/a.mp4" = Some (Text "also").
Proof.
  intros w w'.
  assert (∀ name, mentions "/" name = false → "/tmp/sub/a.mp4" ≠ "/tmp/" +:+ name) as Hp.
  { intros name Hname Heq.
    change "/tmp/sub/a.mp4" with ("/tmp/" +:+ "sub/a.mp4") in Heq.
    apply String.app_inj in Heq. subst name. discriminate. }
  split; [exact Hp|].
  unfold w'. rewrite (run_touches_only_tmp "b" "input" "frames" 5 w _ Hp). reflexivity.
Defined.

(** X8.  A pass never overwrites the object it downloads, nor any other
    object with the same basename: such an object is the same after the
    pass, however the pass ends. *)
Theorem pass_keeps_objects_of_its_basename
    (bucket output_prefix : string) (sampling_rate : Z) (vk k : string) (w : World) :
  basename k = basename vk →
  s3_objects (world_of (for_body bucket output_prefix sampling_rate vk w)) !! k
  = s3_objects w !! k.
Proof.
  intros Hsame. apply for_body_s3_other. intros j Heq.
  apply (f_equal basename) in Heq. rewrite basename_upload_key, Hsame in Heq.
  unfold frame_name_of in Heq. by apply append_ne_self in Heq.
Qed.

Lemma pass_keeps_objects_of_its_basename_witness :
  basename "in/b/v.mp4" = basename "in/a/v.mp4" ∧
  s3_objects (world_of (for_body "b" "in/b" 1 "in/a/v.mp4" same_basename)) !! "in/b/v.mp4"
  = s3_objects same_basename !! "in/b/v.mp4".
Proof.
  split; [reflexivity|].
  apply (pass_keeps_objects_of_its_basename "b" "in/b" 1 "in/a/v.mp4" "in/b/v.mp4").
  reflexivity.
Defined.

(** ** The exceptions a run can die of *)

Lemma for_body_raise_cases (bucket output_prefix : string) (sampling_rate : Z)
    (vk : string) (w w' : World) (e : Exn) :
  for_body bucket output_prefix sampling_rate vk w = Raise e w' →
  e = ClientError ∨ e = S3UploadFailedError ∨ e = UnicodeDecodeError ∨
  e = NotADirectoryError ∨ (e = ZeroDivisionError ∧ sampling_rate = 0).
Proof.
  intros Hrun.
  pose proof (for_body_pass bucket output_prefix sampling_rate vk w) as Hp.
  rewrite Hrun in Hp.
  inversion Hp as [e' Hc| |Hc Hd|obj e' w2 Hc Hf Hobj Hloop| |obj Hc Hf Hobj Hdir]; subst.
  - apply already_completed_raise in Hc as [_ ->]. auto.
  - auto.
  - apply while_loop_raise in Hloop as [(-> & -> & _)|(-> & _)]; auto 10.
  - auto.
Qed.

Lemma for_loop_raise_cases (bucket output_prefix : string) (sampling_rate : Z)
    (video_keys : list string) (w w' : World) (e : Exn) :
  for_loop bucket output_prefix sampling_rate video_keys w = Raise e w' →
  e = ClientError ∨ e = S3UploadFailedError ∨ e = UnicodeDecodeError ∨
  e = NotADirectoryError ∨ (e = ZeroDivisionError ∧ sampling_rate = 0).
Proof.
  revert w; induction video_keys as [|vk rest IH]; intros w Hrun; [done|].
  rewrite for_loop_cons in Hrun.
  destruct (for_body bucket output_prefix sampling_rate vk w) as [[] w1|e1 w1] eqn:Hbody.
  - by eapply IH.
  - injection Hrun as -> ->. by eapply for_body_raise_cases.
Qed.

(** X9.  A run never dies of a missing file: every [os.remove] and every
    [upload_file] finds the file the script has just written or
    downloaded.  It dies of the division only when the sampling rate is 0,
    and [main] itself never exits the way the argument parser does. *)
Theorem run_never_misses_a_file
    (bucket input_prefix output_prefix : string) (sampling_rate : Z)
    (w w' : World) (e : Exn) :
  main bucket input_prefix output_prefix sampling_rate w = Raise e w' →
  e ≠ FileNotFoundError ∧ e ≠ SystemExit ∧
  (e = ZeroDivisionError → sampling_rate = 0).
Proof.
  intros Hrun.
  assert (e = ClientError ∨ e = S3UploadFailedError ∨ e = UnicodeDecodeError ∨
          e = NotADirectoryError ∨ (e = ZeroDivisionError ∧ sampling_rate = 0)) as Hcases.
  { destruct (main_unfold bucket input_prefix output_prefix sampling_rate w)
      as [Hfail|(keys & _ & Hloop)].
    - rewrite Hfail in Hrun. injection Hrun as <- _. auto.
    - rewrite Hloop in Hrun. by eapply for_loop_raise_cases. }
  destruct Hcases as [->|[->|[->|[->|[-> ->]]]]]; done.
Qed.

Lemma run_never_misses_a_file_witness :
  main "b" "input" "frames" 0 one_video
  = Raise ZeroDivisionError (world_of (main "b" "input" "frames" 0 one_video)) ∧
  ZeroDivisionError ≠ FileNotFoundError ∧
  (ZeroDivisionError = ZeroDivisionError → 0 = 0).
Proof.
  assert (main "b" "input" "frames" 0 one_video
          = Raise ZeroDivisionError (world_of (main "b" "input" "frames" 0 one_video)))
    as Hrun by (vm_compute; reflexivity).
  split; [exact Hrun|].
  destruct (run_never_misses_a_file "b" "input" "frames" 0 one_video _ _ Hrun)
    as (Hfile & _ & Hzero).
  split; [exact Hfile | exact Hzero].
Defined.

(** ** The cache file across a pass *)

(** The cache file after a pass that reaches its end. *)
Lemma completed_world_cache (bucket output_prefix : string) (sampling_rate : Z)
    (vk : string) (obj : File) (w : World) :
  files (completed_world bucket output_prefix sampling_rate vk obj w) !! cache_path
  = Some (Text (if decide ("/tmp/" +:+ basename vk = cache_path)
                then cache_line_of vk
                else match files w !! cache_path with
                     | Some (Text old) => old +:+ cache_line_of vk
                     | _ => cache_line_of vk
                     end)).
Proof.
  unfold completed_world, append_world, cache_line_of. cbn [files log with_files].
  rewrite lookup_insert_eq. do 2 f_equal.
  destruct (decide ("/tmp/" +:+ basename vk = cache_path)) as [Heq|Hne].
  - rewrite Heq at 1. by rewrite lookup_delete_eq.
  - rewrite lookup_delete_ne by done.
    rewrite emit_all_files_other
      by (intros j Hj; symmetry in Hj; by eapply frame_path_ne_cache_path).
    cbn [files log with_files]. by rewrite lookup_insert_ne.
Qed.

(** X10.  The cache file is append-only across a pass: a pass that is not
    skipped and reaches its end, for a video that is not named like the
    cache file, leaves the cache file with its former text followed by the
    one line [/tmp/{basename}] and a line feed. *)
Theorem completed_pass_appends_one_line
    (bucket output_prefix : string) (sampling_rate : Z) (vk : string) (w w' : World) :
  already_completed ("/tmp/" +:+ basename vk) w = Ret false w →
  for_body bucket output_prefix sampling_rate vk w = Ret tt w' →
  "/tmp/" +:+ basename vk ≠ cache_path →
  files w' !! cache_path = Some (Text (cache_text w +:+ cache_line_of vk)).
Proof.
  intros Hc Hrun Hne.
  apply for_body_ret_inv in Hrun as [[Hc' _]|(_ & _ & obj & Hobj & ->)]; [congruence|].
  rewrite completed_world_cache, decide_False by done.
  apply already_completed_ret in Hc as [_ [Hnone|[t Ht]]]; unfold cache_text.
  - by rewrite Hnone.
  - by rewrite Ht.
Qed.

Lemma completed_pass_appends_one_line_witness :
  let w := world_of (for_body "b" "frames" 2 "in/a/v.mp4" same_basename) in
  let w' := world_of (for_body "b" "frames" 2 "in/b/v.mp4" w) in
  already_completed ("/tmp/" +:+ basename "in/b/v.mp4") w = Ret false w ∧
  for_body "b" "frames" 2 "in/b/v.mp4" w = Ret tt w' ∧
  "/tmp/" +:+ basename "in/b/v.mp4" ≠ cache_path ∧
  cache_text w = "/tmp/v.mp4" +:+ nl ∧
  files w' !! cache_path = Some (Text (cache_text w +:+ cache_line_of "in/b/v.mp4")).
Proof.
  intros w w'.
  assert (for_body "b" "frames" 2 "in/b/v.mp4" w = Ret tt w') as Hrun
    by (vm_compute; reflexivity).
  assert ("/tmp/" +:+ basename "in/b/v.mp4" ≠ cache_path) as Hne by discriminate.
  split; [vm_compute; reflexivity|]. split; [exact Hrun|]. split; [exact Hne|].
  split; [vm_compute; reflexivity|].
  apply (completed_pass_appends_one_line "b" "frames" 2 "in/b/v.mp4" w w');
    [vm_compute; reflexivity | exact Hrun | exact Hne].
Defined.

(** X11.  A video named like the cache file wipes the cache: its download
    path is the path of the cache file, so the download replaces the cache
    file, [os.remove] deletes it, and the pass ends with a cache file that
    holds the one line of this video; the earlier entries are lost. *)
Theorem video_named_like_the_cache_resets_it
    (bucket output_prefix : string) (sampling_rate : Z) (vk : string) (w w' : World) :
  basename vk = "extract_frames_from_videos_cache.txt" →
  already_completed ("/tmp/" +:+ basename vk) w = Ret false w →
  for_body bucket output_prefix sampling_rate vk w = Ret tt w' →
  files w' !! cache_path = Some (Text (cache_path +:+ nl)).
Proof.
  intros Hname Hc Hrun.
  apply for_body_ret_inv in Hrun as [[Hc' _]|(_ & _ & obj & Hobj & ->)]; [congruence|].
  rewrite completed_world_cache. unfold cache_line_of. rewrite Hname.
  by rewrite decide_True.
Qed.

Lemma video_named_like_the_cache_resets_it_witness :
  let vk := "input/extract_frames_from_videos_cache.txt" in
  let w' := world_of (for_body "b" "frames" 5 vk cache_named_video) in
  basename vk = "extract_frames_from_videos_cache.txt" ∧
  already_completed ("/tmp/" +:+ basename vk) cache_named_video = Ret false cache_named_video ∧
  for_body "b" "frames" 5 vk cache_named_video = Ret tt w' ∧
  files cache_named_video !! cache_path = Some (Text ("/tmp/a.mp4" +:+ nl)) ∧
  files w' !! cache_path = Some (Text (cache_path +:+ nl)).
Proof.
  intros vk w'.
  assert (for_body "b" "frames" 5 vk cache_named_video = Ret tt w') as Hrun
    by (vm_compute; reflexivity).
  split; [reflexivity|]. split; [vm_compute; reflexivity|]. split; [exact Hrun|].
  split; [reflexivity|].
  apply (video_named_like_the_cache_resets_it "b" "frames" 5 vk cache_named_video w');
    [reflexivity | vm_compute; reflexivity | exact Hrun].
Defined.

(** ** Runs without failure *)










(** X13.  The cache file stays a text of complete lines: if it is one, or
    is absent, when a run starts, it is one when the run returns. *)
Theorem returning_run_keeps_the_cache_well_formed
    (bucket input_prefix output_prefix : string) (sampling_rate : Z) (w w' : World) :
  cache_well_formed w →
  main bucket input_prefix output_prefix sampling_rate w = Ret tt w' →
  cache_well_formed w'.
Proof.
  intros Hcache Hrun.
  destruct (main_unfold bucket input_prefix output_prefix sampling_rate w)
    as [Hfail|(keys & _ & Hloop)]; [congruence|].
  rewrite Hloop in Hrun. clear Hloop.
  assert (cache_well_formed (log (ListObjects bucket input_prefix) w)) as Hstart by done.
  revert Hrun Hstart. generalize (log (ListObjects bucket input_prefix) w). clear w Hcache.
  induction keys as [|vk rest IH]; intros w Hrun Hcache.
  { by injection Hrun as <-. }
  rewrite for_loop_cons in Hrun.
  destruct (for_body bucket output_prefix sampling_rate vk w) as [[] w1|e w1] eqn:Hbody;
    [|done].
  apply (IH w1 Hrun).
  apply for_body_ret_inv in Hbody as [[_ ->]|(_ & _ & obj & _ & ->)]; [done|].
  apply cache_well_formed_append.
Qed.

Lemma returning_run_keeps_the_cache_well_formed_witness :
  let w' := world_of (main "b" "input" "frames" 5 one_video) in
  cache_well_formed one_video ∧
  main "b" "input" "frames" 5 one_video = Ret tt w' ∧
  cache_well_formed w'.
Proof.
  intros w'.
  assert (main "b" "input" "frames" 5 one_video = Ret tt w') as Hrun
    by (vm_compute; reflexivity).
  split; [exact I|]. split; [exact Hrun|].
  exact (returning_run_keeps_the_cache_well_formed "b" "input" "frames" 5 one_video w'
           I Hrun).
Defined.

(** ** Objects without frames *)



(** A picture among the videos is processed as a video of one frame. *)
Example picture_is_a_video_of_one_frame :
  let w := fresh_world {[ "input/p.jpg" := Image "pic" ]} never in
  let pass1 := for_body "b" "frames" 5 "input/p.jpg" in
  returns (pass1 w) = true ∧
  uploaded_keys (new_events pass1 w) = ["frames/p.jpg_frame_0.jpg"] ∧
  s3_objects (world_of (pass1 w)) !! "frames/p.jpg_frame_0.jpg" = Some (Image "pic").
Proof. split; [|split]; vm_compute; reflexivity. Qed.

(** ** What [readlines] returns *)

Lemma translate_newlines_no_CR (s : string) : mentions CR (translate_newlines s) = false.
Proof.
  induction s as [|a s IH]; [done|]. cbn [translate_newlines].
  destruct (Ascii.eqb_spec a CR) as [->|Ha].
  - destruct s as [|b s]; [done|]. by destruct (Ascii.eqb b LF).
  - cbn [mentions]. rewrite IH. by destruct (Ascii.eqb_spec a CR).
Qed.

Lemma translate_newlines_id (s : string) :
  mentions CR s = false → translate_newlines s = s.
Proof.
  induction s as [|a s IH]; [done|]. cbn [mentions translate_newlines].
  intros H. apply orb_false_elim in H as [Ha Hs]. by rewrite Ha, IH.
Qed.

Lemma split_keepends_join (s : string) : foldr String.app "" (split_keepends s) = s.
Proof.
  induction s as [|a s IH]; [done|]. cbn [split_keepends].
  destruct (Ascii.eqb_spec a LF) as [->|Ha].
  - cbn [foldr]. by rewrite IH.
  - destruct (split_keepends s) as [|l ls]; cbn [foldr] in *.
    + by rewrite <- IH.
    + by rewrite append_cons, IH.
Qed.

Lemma split_keepends_lines (s : string) :
  Forall (fun l => ∃ body, mentions LF body = false ∧
                     (mentions CR s = false → mentions CR body = false) ∧
                     (l = body +:+ nl ∨ (l = body ∧ body ≠ "")))
    (split_keepends s).
Proof.
  induction s as [|a s IH]; [constructor|]. cbn [split_keepends].
  assert (mentions CR (String a s) = false → mentions CR s = false) as Hcr.
  { cbn [mentions]. by intros [_ ?]%orb_false_elim. }
  destruct (Ascii.eqb_spec a LF) as [->|Ha].
  - constructor.
    + exists "". split; [done|]. split; [done|]. by left.
    + eapply Forall_impl; [exact IH|]. intros l (body & ? & ? & ?). exists body. auto.
  - assert (Ascii.eqb a LF = false) as Ha' by by apply Ascii.eqb_neq.
    destruct (split_keepends s) as [|l ls].
    + constructor; [|constructor]. exists (String a "").
      split; [cbn; by rewrite Ha'|]. split; [|by right].
      cbn [mentions]. intros [-> _]%orb_false_elim. done.
    + inversion IH as [|? ? (body & Hlf & Hbcr & Hl) Hls]; subst. constructor.
      * exists (String a body). split; [cbn [mentions]; by rewrite Ha', Hlf|].
        split.
        -- cbn [mentions]. intros [-> Hs]%orb_false_elim. by rewrite Hbcr.
        -- destruct Hl as [->|[-> _]]; [by left | by right].
      * eapply Forall_impl; [exact Hls|]. intros l' (body' & ? & ? & ?).
        exists body'. auto.
Qed.

(** X15.  [readlines] cuts the text of the file, newlines translated,
    into its lines without losing a character: the lines joined give the
    text back, and every line is a body free of line feeds and carriage
    returns followed by one line feed, or, without the line feed, a
    non-empty body.  The line feeds are kept, which is why a line never
    equals a path. *)
Theorem readlines_keeps_the_text (content : string) :
  foldr String.app "" (readlines content) = translate_newlines content ∧
  Forall (fun l => ∃ body, mentions LF body = false ∧ mentions CR body = false ∧
                     (l = body +:+ nl ∨ (l = body ∧ body ≠ "")))
    (readlines content).
Proof.
  unfold readlines. split; [apply split_keepends_join|].
  eapply Forall_impl; [apply split_keepends_lines|].
  intros l (body & Hlf & Hcr & Hl). exists body. split; [done|]. split; [|done].
  apply Hcr, translate_newlines_no_CR.
Qed.

(** ** When the skip does fire *)

Lemma terminated_tail (a : ascii) (s : string) :
  s ≠ "" → terminated (String a s) = true → terminated s = true.
Proof. by destruct s. Qed.

Lemma translate_newlines_app (t p : string) :
  terminated t = true →
  translate_newlines (t +:+ p) = translate_newlines t +:+ translate_newlines p.
Proof.
  induction t as [|a t IH]; [done|]. intros Ht.
  rewrite append_cons. cbn [translate_newlines].
  destruct t as [|b t].
  - cbn in Ht. apply Ascii.eqb_eq in Ht as ->. by rewrite append_nil_l.
  - assert (String b t ≠ "") as Hne by done.
    specialize (IH (terminated_tail a _ Hne Ht)).
    rewrite IH. rewrite (append_cons b).
    destruct (Ascii.eqb a CR); [|done].
    by destruct (Ascii.eqb b LF).
Qed.

Lemma split_keepends_nil (s : string) : split_keepends s = [] → s = "".
Proof.
  destruct s as [|a s]; [done|]. cbn [split_keepends].
  destruct (Ascii.eqb a LF); [done|]. by destruct (split_keepends s).
Qed.

Lemma split_keepends_one_line (p : string) :
  p ≠ "" → mentions LF p = false → split_keepends p = [p].
Proof.
  induction p as [|a p IH]; [done|]. intros _ Hp. cbn [mentions] in Hp.
  apply orb_false_elim in Hp as [Ha Hp]. cbn [split_keepends]. rewrite Ha.
  destruct p as [|b p]; [done|]. by rewrite IH.
Qed.

Lemma split_keepends_app (t p : string) :
  terminated t = true → p ≠ "" → mentions LF p = false →
  split_keepends (t +:+ p) = split_keepends t ++ [p].
Proof.
  intros Ht Hp Hlf. induction t as [|a t IH].
  { rewrite append_nil_l. by apply split_keepends_one_line. }
  rewrite append_cons. cbn [split_keepends].
  destruct t as [|b t].
  - cbn in Ht. rewrite Ht, append_nil_l. by rewrite split_keepends_one_line.
  - assert (String b t ≠ "") as Hne by done.
    specialize (IH (terminated_tail a _ Hne Ht)). rewrite IH.
    destruct (Ascii.eqb a LF); [done|].
    destruct (split_keepends (String b t)) as [|l ls] eqn:E; [|done].
    by apply split_keepends_nil in E.
Qed.

(** X16.  The skip fires for a cache file whose last line has lost its
    line feed: when the cache file holds complete lines followed by the
    download path of the video, without terminator, the pass of this video
    is skipped and changes nothing, no download included.  (The script
    never writes such a file itself.) *)
Theorem unterminated_last_entry_skips_the_video
    (bucket output_prefix : string) (sampling_rate : Z) (vk t : string) (w : World) :
  files w !! cache_path = Some (Text (t +:+ "/tmp/" +:+ basename vk)) →
  terminated t = true →
  mentions LF (basename vk) = false →
  mentions CR (basename vk) = false →
  already_completed ("/tmp/" +:+ basename vk) w = Ret true w ∧
  for_body bucket output_prefix sampling_rate vk w = Ret tt w.
Proof.
  intros Hfile Ht Hlf Hcr.
  assert (already_completed ("/tmp/" +:+ basename vk) w = Ret true w) as Hc.
  { rewrite already_completed_eq, Hfile.
    rewrite bool_decide_eq_true_2; [done|].
    unfold readlines. rewrite translate_newlines_app by done.
    rewrite (translate_newlines_id ("/tmp/" +:+ basename vk))
      by (by rewrite mentions_append, Hcr).
    rewrite split_keepends_app.
    - apply elem_of_app. right. by apply list_elem_of_singleton.
    - by apply translate_newlines_terminated.
    - done.
    - by apply download_path_no_LF. }
  split; [exact Hc|]. by apply for_body_skipped.
Qed.

Lemma unterminated_last_entry_skips_the_video_witness :
  files unterminated_cache !! cache_path
  = Some (Text (("/tmp/b.mp4" +:+ nl) +:+ "/tmp/" +:+ basename "input/a.mp4")) ∧
  terminated ("/tmp/b.mp4" +:+ nl) = true ∧
  mentions LF (basename "input/a.mp4") = false ∧
  mentions CR (basename "input/a.mp4") = false ∧
  for_body "b" "frames" 5 "input/a.mp4" unterminated_cache = Ret tt unterminated_cache.
Proof.
  split; [reflexivity|]. split; [reflexivity|]. split; [reflexivity|].
  split; [reflexivity|].
  exact (proj2 (unterminated_last_entry_skips_the_video "b" "frames" 5 "input/a.mp4"
                  ("/tmp/b.mp4" +:+ nl) unterminated_cache eq_refl eq_refl eq_refl eq_refl)).
Defined.

(** ** What a failed upload leaves in the bucket *)




(** * Keys with the same basename *)





